(** * Courier Hotspots (UK-ZONES): the [App] component of [src/App.tsx]

    A shallow embedding of the React component and of the Leaflet calls it
    issues, followed by the properties of the radius store, the search
    filter and the map adapter.

    Conventions of the embedding.
    - JavaScript numbers that the component uses as location ids are the
      type [number]: an integer ([Int z], exact on the safe-integer range) or
      [NaN], which is what [parseInt] can return.  Radii, in kilometres, and
      circle radii, in metres, are [Z].
    - A JavaScript object used as a dictionary keyed by such numbers is a
      [gmap number V]; its property keys are the strings [ToString k], and
      [Object_keys] and [Object_entries] list them as strings, as the
      source receives them.
    - Strings are [string]; [toLowerCase] acts on the ASCII letters.
    - The React runtime is the function [commit]: after a render it runs, in
      the order of their declaration, the effects whose dependencies
      changed, and renders once more when an effect called a state setter. *)

From Stdlib Require Import ZArith QArith.QArith_base Strings.String Strings.Ascii.
From Stdlib Require Import Numbers.DecimalString Numbers.DecimalPos Numbers.DecimalZ.
From stdpp Require Import base decidable countable gmap sets list strings.

#[local] Open Scope Z_scope.
(* stdpp's solvers clear hypotheses by name, which Rocq 9.3 reports. *)
#[local] Set Warnings "-clear-no-such-hyp".

(** ** The fragment of JavaScript the component relies on *)

Module JS.

(** A number used as an id or produced by [parseInt]. *)
Inductive number : Type :=
  | Int (z : Z)
  | NaN.

#[global] Instance number_eq_dec : EqDecision number.
Proof. solve_decision. Defined.

#[global] Instance number_countable : Countable number :=
  inj_countable'
    (λ n, match n with Int z => Some z | NaN => None end)
    (λ o, match o with Some z => Int z | None => NaN end)
    (λ n, match n with Int _ => eq_refl | NaN => eq_refl end).

(** [String(z)] for an integer: decimal digits, a leading minus sign for a
    negative one. *)
Definition Z_ToString (z : Z) : string :=
  NilZero.string_of_int (Z.to_int z).

(** [ToString], as applied to a property key and by [String(..)]. *)
Definition ToString (n : number) : string :=
  match n with
  | Int z => Z_ToString z
  | NaN => "NaN"
  end.

(** The white space [parseInt] skips (the ASCII part of StrWhiteSpaceChar). *)
Definition is_white_space (c : ascii) : bool :=
  match N_of_ascii c with
  | 9%N | 10%N | 11%N | 12%N | 13%N | 32%N => true
  | _ => false
  end.

Fixpoint trim_start (s : string) : string :=
  match s with
  | String c s' => if is_white_space c then trim_start s' else s
  | EmptyString => s
  end.

(** The value of a radix-10 digit. *)
Definition digit_value (c : ascii) : option Z :=
  let n := N_of_ascii c in
  if ((48 <=? n) && (n <=? 57))%N then Some (Z.of_N n - 48) else None.

(** The longest prefix of digits, read in radix 10 onto [acc]. *)
Fixpoint parse_digits (s : string) (acc : Z) : Z :=
  match s with
  | String c s' =>
      match digit_value c with
      | Some d => parse_digits s' (10 * acc + d)
      | None => acc
      end
  | EmptyString => acc
  end.

(** [parseInt(s, 10)] on what is left after the sign: [NaN] when it does
    not start with a digit. *)
Definition parse_unsigned (s : string) : option Z :=
  match s with
  | String c _ =>
      match digit_value c with
      | Some _ => Some (parse_digits s 0)
      | None => None
      end
  | EmptyString => None
  end.

(** [parseInt(s, 10)]. *)
Definition parseInt (s : string) : number :=
  match trim_start s with
  | String "-" s' =>
      match parse_unsigned s' with Some v => Int (- v) | None => NaN end
  | String "+" s' =>
      match parse_unsigned s' with Some v => Int v | None => NaN end
  | s' =>
      match parse_unsigned s' with Some v => Int v | None => NaN end
  end.






(** The own property keys of an object, as strings.  They are listed in the
    order of the finite map, which is not JavaScript's (ascending indices,
    then insertion order); no property below depends on the order. *)
Definition Object_keys {V} (o : gmap number V) : list string :=
  (λ kv, ToString kv.1) <$> map_to_list o.

Definition Object_entries {V} (o : gmap number V) : list (string * V) :=
  (λ kv, (ToString kv.1, kv.2)) <$> map_to_list o.

Definition Object_values {V} (o : gmap number V) : list V :=
  snd <$> map_to_list o.

End JS.

Export JS.

(** ** The catalog ([types.ts], [constants.ts]) *)

(** One record of the catalog. *)
Record LocationData : Type := mkLocation {
  id : Z;
  city : string;
  region : string;
  lat : Q;
  lng : Q;
  courierNeed : Z
}.

(** A small catalog used in the examples, with the ids 1, 2 and 3. *)
Definition sample_LOCATIONS : list LocationData :=
  [ mkLocation 1 "London" "Greater London" (515 # 10) (-1 # 10) 500;
    mkLocation 2 "Londonderry" "Northern Ireland" (55 # 1) (-73 # 10) 120;
    mkLocation 3 "Leeds" "Yorkshire" (538 # 10) (-15 # 10) 300 ].

(** ** The Leaflet objects the component holds, and the calls it issues *)

Module Leaflet.

(** The layers the component creates: the tile layer, the heat layer, the
    marker cluster group, and the marker and the circle made for the
    catalog record at position [i]. *)
Inductive Layer : Type :=
  | TileLayer
  | HeatLayer
  | MarkerClusterGroup
  | Marker (i : nat)
  | Circle (i : nat).

#[global] Instance Layer_eq_dec : EqDecision Layer.
Proof. solve_decision. Defined.

#[global] Instance Layer_countable : Countable Layer :=
  inj_countable'
    (λ l, match l with
          | TileLayer => inl 0%nat
          | HeatLayer => inl 1%nat
          | MarkerClusterGroup => inl 2%nat
          | Marker i => inr (inl i)
          | Circle i => inr (inr i)
          end)
    (λ c, match c with
          | inl 0%nat => TileLayer
          | inl 1%nat => HeatLayer
          | inl _ => MarkerClusterGroup
          | inr (inl i) => Marker i
          | inr (inr i) => Circle i
          end)
    (λ l, match l with
          | TileLayer | HeatLayer | MarkerClusterGroup | Marker _ | Circle _ => eq_refl
          end).

(** What [createMarkerIcon] hands to [L.divIcon]: the dot is always there,
    the label bubble holds the city name when labels are shown. *)
Record DivIcon : Type := mkDivIcon { labelHtml : option string }.

Inductive Control : Type := Legend | FullscreenControl.

(** The calls on Leaflet objects that change what is drawn. *)
Inductive Call : Type :=
  | AddLayer (l : Layer)            (* map.addLayer(l), l.addTo(map) *)
  | RemoveLayer (l : Layer)         (* map.removeLayer(l) *)
  | ClusterAddLayer (i : nat)       (* markerClusterGroup.addLayer(marker) *)
  | SetRadius (i : nat) (m : Z)     (* circle.setRadius(m) *)
  | SetIcon (i : nat) (icon : DivIcon)  (* marker.setIcon(icon) *)
  | BindPopup (i : nat)             (* marker.bindPopup(popupContent) *)
  | AddControl (c : Control)        (* legend.addTo(map), map.addControl(..) *)
  | SetView (zoom : Z)              (* map.setView(.., zoom) *)
  | ZoomToShowLayer (i : nat)       (* markerClusterGroup.zoomToShowLayer(marker, ..) *)
  | OpenPopup (i : nat).            (* marker.openPopup() *)

End Leaflet.

Export Leaflet.

(** ** The component *)

(** The pair stored in [layerRefs.current[loc.id]]. *)
Record LayerPair : Type := mkLayerPair { marker : nat; circle : nat }.

(** The state held by the [useState] hooks. *)
Record Hooks : Type := mkHooks {
  searchTerm : string;
  radii : gmap number Z;
  isSynced : bool;
  uniformRadius : Z;
  showLabels : bool;
  showHeatmap : bool;
  isClusteringEnabled : bool
}.

(** What lives outside React state: the [useRef] cells, the Leaflet map,
    the document, and the log of the calls issued so far. *)
Record World : Type := mkWorld {
  mapRef : bool;                       (* mapRef.current is a map *)
  mapContainerRef : bool;              (* the container div is mounted *)
  heatmapLayerRef : bool;
  markerClusterGroupRef : bool;
  layerRefs : gmap number LayerPair;
  mapLayers : gset Layer;              (* the layers the component put on the map *)
  clusterLayers : gset nat;            (* the markers in the cluster group *)
  circleRadius : gmap nat Z;           (* metres *)
  markerIcon : gmap nat DivIcon;
  heatPoints : list (Q * Q * Z);
  document : gmap string string;            (* element id -> value or innerText *)
  calls : list Call
}.

Record State : Type := mkState { hooks : Hooks; world : World }.

(** The argument of a state setter: a value, or a function of the previous
    state. *)
Inductive SetStateAction (S : Type) : Type :=
  | SetValue (v : S)
  | SetUpdater (f : S → S).
Arguments SetValue {S} v.
Arguments SetUpdater {S} f.

Definition applyAction {S} (s : S) (a : SetStateAction S) : S :=
  match a with
  | SetValue v => v
  | SetUpdater f => f s
  end.

(** *** Field updates *)

Definition with_searchTerm (q : string) (h : Hooks) : Hooks :=
  mkHooks q (radii h) (isSynced h) (uniformRadius h) (showLabels h)
    (showHeatmap h) (isClusteringEnabled h).
Definition with_radii (r : gmap number Z) (h : Hooks) : Hooks :=
  mkHooks (searchTerm h) r (isSynced h) (uniformRadius h) (showLabels h)
    (showHeatmap h) (isClusteringEnabled h).
Definition with_isSynced (b : bool) (h : Hooks) : Hooks :=
  mkHooks (searchTerm h) (radii h) b (uniformRadius h) (showLabels h)
    (showHeatmap h) (isClusteringEnabled h).
Definition with_uniformRadius (v : Z) (h : Hooks) : Hooks :=
  mkHooks (searchTerm h) (radii h) (isSynced h) v (showLabels h)
    (showHeatmap h) (isClusteringEnabled h).
Definition with_showLabels (b : bool) (h : Hooks) : Hooks :=
  mkHooks (searchTerm h) (radii h) (isSynced h) (uniformRadius h) b
    (showHeatmap h) (isClusteringEnabled h).
Definition with_showHeatmap (b : bool) (h : Hooks) : Hooks :=
  mkHooks (searchTerm h) (radii h) (isSynced h) (uniformRadius h)
    (showLabels h) b (isClusteringEnabled h).
Definition with_isClusteringEnabled (b : bool) (h : Hooks) : Hooks :=
  mkHooks (searchTerm h) (radii h) (isSynced h) (uniformRadius h)
    (showLabels h) (showHeatmap h) b.

Definition with_mapLayers (ls : gset Layer) (w : World) : World :=
  mkWorld (mapRef w) (mapContainerRef w) (heatmapLayerRef w)
    (markerClusterGroupRef w) (layerRefs w) ls (clusterLayers w)
    (circleRadius w) (markerIcon w) (heatPoints w) (document w) (calls w).
Definition with_circleRadius (cr : gmap nat Z) (w : World) : World :=
  mkWorld (mapRef w) (mapContainerRef w) (heatmapLayerRef w)
    (markerClusterGroupRef w) (layerRefs w) (mapLayers w) (clusterLayers w)
    cr (markerIcon w) (heatPoints w) (document w) (calls w).
Definition with_markerIcon (mi : gmap nat DivIcon) (w : World) : World :=
  mkWorld (mapRef w) (mapContainerRef w) (heatmapLayerRef w)
    (markerClusterGroupRef w) (layerRefs w) (mapLayers w) (clusterLayers w)
    (circleRadius w) mi (heatPoints w) (document w) (calls w).
Definition with_document (d : gmap string string) (w : World) : World :=
  mkWorld (mapRef w) (mapContainerRef w) (heatmapLayerRef w)
    (markerClusterGroupRef w) (layerRefs w) (mapLayers w) (clusterLayers w)
    (circleRadius w) (markerIcon w) (heatPoints w) d (calls w).
Definition with_layerRefs (lr : gmap number LayerPair) (w : World) : World :=
  mkWorld (mapRef w) (mapContainerRef w) (heatmapLayerRef w)
    (markerClusterGroupRef w) lr (mapLayers w) (clusterLayers w)
    (circleRadius w) (markerIcon w) (heatPoints w) (document w) (calls w).
Definition with_clusterLayers (cl : gset nat) (w : World) : World :=
  mkWorld (mapRef w) (mapContainerRef w) (heatmapLayerRef w)
    (markerClusterGroupRef w) (layerRefs w) (mapLayers w) cl
    (circleRadius w) (markerIcon w) (heatPoints w) (document w) (calls w).
(** The three cells [mapRef], [heatmapLayerRef] and [markerClusterGroupRef]
    and the points of the heat layer are written by the initialization
    only. *)
Definition with_refs (m hl cg : bool) (hp : list (Q * Q * Z)) (w : World) : World :=
  mkWorld m (mapContainerRef w) hl cg (layerRefs w) (mapLayers w)
    (clusterLayers w) (circleRadius w) (markerIcon w) hp (document w) (calls w).
(** Every call is appended to the log. *)
Definition log (c : Call) (w : World) : World :=
  mkWorld (mapRef w) (mapContainerRef w) (heatmapLayerRef w)
    (markerClusterGroupRef w) (layerRefs w) (mapLayers w) (clusterLayers w)
    (circleRadius w) (markerIcon w) (heatPoints w) (document w) (calls w ++ [c]).

(** *** Leaflet primitives

    The map is known by the layers the component itself added and has not
    removed.  Which of its markers the cluster group shows while it is on
    the map, and the 'add' and 'remove' events it fires for them, are the
    plugin's, and are not modelled. *)

Definition hasLayer (l : Layer) (w : World) : bool :=
  bool_decide (l ∈ mapLayers w).

(** Putting a layer on the map, taking it off, with no listener run. *)
Definition attach (l : Layer) (w : World) : World :=
  with_mapLayers ({[ l ]} ∪ mapLayers w) (log (AddLayer l) w).
Definition detach (l : Layer) (w : World) : World :=
  with_mapLayers (mapLayers w ∖ {[ l ]}) (log (RemoveLayer l) w).

(** The listeners of lines 114-123: the circle follows its marker. *)
Definition onMarkerAdd (i : nat) (w : World) : World :=
  if negb (hasLayer (Circle i) w) then attach (Circle i) w else w.
Definition onMarkerRemove (i : nat) (w : World) : World :=
  if hasLayer (Circle i) w then detach (Circle i) w else w.

(** [map.addLayer(l)]: nothing happens to a layer that is on the map; a
    marker that gets on the map fires its 'add' listener. *)
Definition addLayer (l : Layer) (w : World) : World :=
  if hasLayer l w then log (AddLayer l) w
  else
    let w := attach l w in
    match l with
    | Marker i => onMarkerAdd i w
    | _ => w
    end.

(** [map.removeLayer(l)], with the 'remove' listener of a marker. *)
Definition removeLayer (l : Layer) (w : World) : World :=
  if negb (hasLayer l w) then log (RemoveLayer l) w
  else
    let w := detach l w in
    match l with
    | Marker i => onMarkerRemove i w
    | _ => w
    end.

Definition circle_setRadius (c : nat) (m : Z) (w : World) : World :=
  with_circleRadius (<[c := m]> (circleRadius w)) (log (SetRadius c m) w).

Definition marker_setIcon (m : nat) (icon : DivIcon) (w : World) : World :=
  with_markerIcon (<[m := icon]> (markerIcon w)) (log (SetIcon m icon) w).

(** The ids of the two elements of a popup that the component looks up. *)
Definition slider_id (n : number) : string := "radius-" +:+ ToString n.
Definition label_id (n : number) : string := "radius-val-" +:+ ToString n.

(** The elements a popup brings into the document when it opens: its
    content is the string built at lines 126-141, slider and label at 10. *)
Definition popupContent (loc : LocationData) : gmap string string :=
  <[slider_id (Int (id loc)) := "10"%string]>
    (<[label_id (Int (id loc)) := "10"%string]> ∅).

(** [marker.openPopup()]: the popup of marker [i] replaces the open one. *)
Definition openPopup (i : nat) (loc : LocationData) (w : World) : World :=
  with_document (popupContent loc) (log (OpenPopup i) w).

(** *** The body of the component *)

Section App.

Variable LOCATIONS : list LocationData.


(** Lines 39-59. *)
Definition createMarkerIcon (loc : LocationData) (labelsVisible : bool) : DivIcon :=
  mkDivIcon (if labelsVisible then Some (city loc) else None).

(** Line 91-93: what [window.updateRadius(id, radius)] hands to [setRadii]. *)
Definition updateRadius (id : number) (radius : Z) : SetStateAction (gmap number Z) :=
  SetUpdater (λ prev, <[id := radius]> prev).

(** Lines 97-148, one round of the [forEach] for the record at position
    [i]: the entry of [initialRadii], the marker with its icon, the circle
    of 10 km, the popup, the pair in [layerRefs], the marker into the
    cluster group. *)
Definition initLocation (i : nat) (loc : LocationData)
    (st : gmap number Z * World) : gmap number Z * World :=
  let '(initialRadii, w) := st in
  let initialRadii := <[Int (id loc) := 10]> initialRadii in
  let w := with_markerIcon (<[i := createMarkerIcon loc true]> (markerIcon w)) w in
  let w := with_circleRadius (<[i := 10 * 1000]> (circleRadius w)) w in
  let w := log (BindPopup i) w in
  let w := with_layerRefs (<[Int (id loc) := mkLayerPair i i]> (layerRefs w)) w in
  let w := with_clusterLayers ({[ i ]} ∪ clusterLayers w) (log (ClusterAddLayer i) w) in
  (initialRadii, w).

Fixpoint initLocations (i : nat) (locs : list LocationData)
    (st : gmap number Z * World) : gmap number Z * World :=
  match locs with
  | [] => st
  | loc :: locs' => initLocations (S i) locs' (initLocation i loc st)
  end.

(** Lines 62-209, the effect that runs once: the world it leaves and the
    [setRadii] call it makes. *)
Definition initEffect (w : World) : World * list (SetStateAction (gmap number Z)) :=
  if mapRef w || negb (mapContainerRef w) then (w, [])
  else
    let w := with_refs true false false [] (log (SetView 6) w) in
    let w := addLayer TileLayer w in
    let heatPoints := (λ loc, (lat loc, lng loc, courierNeed loc)) <$> LOCATIONS in
    let w := with_refs true true false heatPoints w in
    let w := with_refs true true true heatPoints w in
    let '(initialRadii, w) := initLocations 0 LOCATIONS (∅, w) in
    let w := addLayer MarkerClusterGroup w in
    let w := log (AddControl Legend) w in
    let w := log (AddControl FullscreenControl) w in
    (w, [SetValue initialRadii]).

(** Lines 212-229: one entry of [Object.entries(radii)]. *)
Definition radiiEntry (w : World) (entry : string * Z) : World :=
  let '(id, radius) := entry in
  let numericId := parseInt id in
  match layerRefs w !! numericId with
  | Some refs =>
      let radiusInMeters := radius * 1000 in
      let w := circle_setRadius (circle refs) radiusInMeters w in
      match document w !! slider_id numericId with
      | Some _ =>
          let w := with_document (<[slider_id numericId := Z_ToString radius]> (document w)) w in
          match document w !! label_id numericId with
          | Some _ => with_document (<[label_id numericId := Z_ToString radius]> (document w)) w
          | None => w
          end
      | None => w
      end
  | None => w
  end.

Definition radiiEffect (radii : gmap number Z) (w : World) : World :=
  fold_left radiiEntry (Object_entries radii) w.

(** Lines 232-246. *)
Definition heatmapEffect (showHeatmap : bool) (w : World) : World :=
  if negb (mapRef w) || negb (heatmapLayerRef w) then w
  else if showHeatmap then
    if negb (hasLayer HeatLayer w) then addLayer HeatLayer w else w
  else
    if hasLayer HeatLayer w then removeLayer HeatLayer w else w.

(** Lines 251-254: the object built by the [reduce]. *)
Definition newRadii (radii : gmap number Z) (uniformRadius : Z) : gmap number Z :=
  fold_left (λ acc id, <[parseInt id := uniformRadius]> acc) (Object_keys radii) ∅.

(** Lines 249-257: the [setRadii] calls of the synchronization effect. *)
Definition syncEffect (h : Hooks) : list (SetStateAction (gmap number Z)) :=
  if isSynced h then [SetValue (newRadii (radii h) (uniformRadius h))] else [].

(** Lines 260-268. *)
Definition labelsEffect (showLabels : bool) (w : World) : World :=
  fold_left
    (λ w loc,
       match layerRefs w !! Int (id loc) with
       | Some refs => marker_setIcon (marker refs) (createMarkerIcon loc showLabels) w
       | None => w
       end)
    LOCATIONS w.

(** Lines 271-299. *)
Definition clusteringEffect (isClusteringEnabled : bool) (w : World) : World :=
  if negb (mapRef w) || negb (markerClusterGroupRef w) then w
  else if isClusteringEnabled then
    let w :=
      fold_left
        (λ w refs,
           if hasLayer (Marker (marker refs)) w
           then removeLayer (Marker (marker refs)) w else w)
        (Object_values (layerRefs w)) w in
    if negb (hasLayer MarkerClusterGroup w) then addLayer MarkerClusterGroup w else w
  else
    let w :=
      if hasLayer MarkerClusterGroup w then removeLayer MarkerClusterGroup w else w in
    fold_left
      (λ w refs,
         if negb (hasLayer (Marker (marker refs)) w)
         then addLayer (Marker (marker refs)) w else w)
      (Object_values (layerRefs w)) w.

(** Lines 301-317. *)
Definition handleLocationSelect (h : Hooks) (loc : LocationData) (w : World) : World :=
  match mapRef w, layerRefs w !! Int (id loc) with
  | true, Some refs =>
      if isClusteringEnabled h && markerClusterGroupRef w
      then openPopup (marker refs) loc (log (ZoomToShowLayer (marker refs)) w)
      else openPopup (marker refs) loc (log (SetView 13) w)
  | _, _ => w
  end.

(** *** The React runtime, for this component *)

(** Which dependency arrays differ from those of the previous render.
    [radii] is compared by identity: every [setRadii] call of the component
    passes a fresh object, so it changes whenever [setRadii] was called. *)
Record Changed : Type := mkChanged {
  radii_changed : bool;              (* [radii] *)
  showHeatmap_changed : bool;        (* [showHeatmap] *)
  sync_changed : bool;               (* [isSynced, uniformRadius] *)
  showLabels_changed : bool;         (* [showLabels] *)
  clustering_changed : bool          (* [isClusteringEnabled] *)
}.

Definition changed (h h' : Hooks) (radii_set : bool) : Changed :=
  mkChanged radii_set
    (negb (Bool.eqb (showHeatmap h) (showHeatmap h')))
    (negb (Bool.eqb (isSynced h) (isSynced h'))
     || negb (uniformRadius h =? uniformRadius h'))
    (negb (Bool.eqb (showLabels h) (showLabels h')))
    (negb (Bool.eqb (isClusteringEnabled h) (isClusteringEnabled h'))).

Definition all_changed : Changed := mkChanged true true true true true.
Definition only_radii_changed : Changed := mkChanged true false false false false.

(** The effects of one render, in the order of their declaration; the
    first one runs on mount only.  The result is the world they leave and
    the [setRadii] calls they made. *)
Definition effects (first : bool) (c : Changed) (h : Hooks) (w : World)
    : World * list (SetStateAction (gmap number Z)) :=
  let '(w, q1) := if first then initEffect w else (w, []) in
  let w := if radii_changed c then radiiEffect (radii h) w else w in
  let w := if showHeatmap_changed c then heatmapEffect (showHeatmap h) w else w in
  let q2 := if sync_changed c then syncEffect h else [] in
  let w := if showLabels_changed c then labelsEffect (showLabels h) w else w in
  let w := if clustering_changed c then clusteringEffect (isClusteringEnabled h) w else w in
  (w, q1 ++ q2).

(** A render with its effects and, when they called [setRadii], the render
    that follows: there only [radii] changed, and the effect that depends
    on [radii] calls no setter, so the component is then at rest. *)
Definition commit (first : bool) (c : Changed) (h : Hooks) (w : World) : State :=
  let '(w1, q) := effects first c h w in
  match q with
  | [] => mkState h w1
  | _ :: _ =>
      let h' := with_radii (fold_left applyAction q (radii h)) h in
      mkState h' (effects false only_radii_changed h' w1).1
  end.

(** A state setter was called with a result [h'] for the hooks: React
    renders and runs the effects whose dependencies changed (none of them
    when the new value is the old one). *)
Definition render (h' : Hooks) (radii_set : bool) (s : State) : State :=
  commit false (changed (hooks s) h' radii_set) h' (world s).

Definition setRadii (a : SetStateAction (gmap number Z)) (s : State) : State :=
  render (with_radii (applyAction (radii (hooks s)) a) (hooks s)) true s.

(** What can happen to the mounted component. *)
Inductive Event : Type :=
  | SetSearchTerm (q : string)                  (* line 334 *)
  | WindowUpdateRadius (id : number) (radius : Z)  (* a call of window.updateRadius *)
  | PopupInput (loc : LocationData) (value : Z) (* line 137, the slider of an open popup *)
  | SetIsClusteringEnabled (b : bool)           (* line 359 *)
  | SetShowHeatmap (b : bool)                   (* line 369 *)
  | SetShowLabels (b : bool)                    (* line 379 *)
  | SetIsSynced (b : bool)                      (* line 389 *)
  | SetUniformRadius (v : Z)                    (* line 400 *)
  | LocationSelect (loc : LocationData)         (* line 341 *)
  | PopupClose.                                 (* the user closes the popup *)

Definition handle (e : Event) (s : State) : State :=
  let h := hooks s in
  match e with
  | SetSearchTerm q => render (with_searchTerm q h) false s
  | WindowUpdateRadius id radius => setRadii (updateRadius id radius) s
  | PopupInput loc value =>
      match document (world s) !! slider_id (Int (id loc)) with
      | Some _ =>
          let d := <[label_id (Int (id loc)) := Z_ToString value]>
                     (<[slider_id (Int (id loc)) := Z_ToString value]> (document (world s))) in
          setRadii (updateRadius (Int (id loc)) value)
            (mkState h (with_document d (world s)))
      | None => s
      end
  | SetIsClusteringEnabled b => render (with_isClusteringEnabled b h) false s
  | SetShowHeatmap b => render (with_showHeatmap b h) false s
  | SetShowLabels b => render (with_showLabels b h) false s
  | SetIsSynced b => render (with_isSynced b h) false s
  | SetUniformRadius v => render (with_uniformRadius v h) false s
  | LocationSelect loc => mkState h (handleLocationSelect h loc (world s))
  | PopupClose => mkState h (with_document ∅ (world s))
  end.

(** Lines 19-31: the hooks and the cells before the first effect; the
    container div is in the document by then. *)
Definition initialHooks : Hooks := mkHooks "" ∅ false 10 true false true.
Definition initialWorld : World :=
  mkWorld false true false false ∅ ∅ ∅ ∅ ∅ [] ∅ [].

(** The component once mounted: every effect has run, and the catalog is
    loaded into [radii]. *)
Definition mount : State := commit true all_changed initialHooks initialWorld.

(** The state after a sequence of events. *)
Definition session (es : list Event) : State :=
  fold_left (λ s e, handle e s) es mount.

(** *** The notions the properties are stated with *)

(** The set of ids of the catalog, as keys of [radii]. *)
Definition catalogIds : gset number :=
  list_to_set ((λ loc, Int (id loc)) <$> LOCATIONS).







(** The events that set the synchronization off: the uniform radius
    changes while [isSynced] holds, or [isSynced] becomes true. *)
Definition syncTrigger (e : Event) (s : State) : Prop :=
  match e with
  | SetUniformRadius v =>
      isSynced (hooks s) = true ∧ v ≠ uniformRadius (hooks s)
  | SetIsSynced b => b = true ∧ isSynced (hooks s) = false
  | _ => False
  end.

(** The hooks as the render that follows the event sees them, before any
    effect has run. *)
Definition afterSetter (e : Event) (h : Hooks) : Hooks :=
  match e with
  | SetUniformRadius v => with_uniformRadius v h
  | SetIsSynced b => with_isSynced b h
  | _ => h
  end.

(** A call of [window.updateRadius] made for an id of the catalog. *)
Definition forCatalogId (e : Event) : Prop :=
  match e with
  | WindowUpdateRadius k _ => k ∈ catalogIds
  | _ => True
  end.

(** The three visualization flags. *)
Definition flags (h : Hooks) : bool * bool * bool :=
  (showLabels h, showHeatmap h, isClusteringEnabled h).

(** What holds of every state of a session. *)
Record Inv (s : State) : Prop := mkInv {
  inv_mapRef : mapRef (world s) = true;
  inv_heatmapLayerRef : heatmapLayerRef (world s) = true;
  inv_markerClusterGroupRef : markerClusterGroupRef (world s) = true;
  inv_layerRefs : ∀ k p, layerRefs (world s) !! k = Some p →
      circle p = marker p
      ∧ ∃ loc, LOCATIONS !! marker p = Some loc ∧ k = Int (id loc);
  inv_layerRefs_dom : dom (layerRefs (world s)) = catalogIds;
  inv_clusterLayers : ∀ i, (i < length LOCATIONS)%nat → i ∈ clusterLayers (world s);
  inv_radii : catalogIds ⊆ dom (radii (hooks s));
  inv_circles : ∀ k p r,
      layerRefs (world s) !! k = Some p → radii (hooks s) !! k = Some r →
      circleRadius (world s) !! circle p = Some (r * 1000);
  inv_mode :
      if isClusteringEnabled (hooks s)
      then MarkerClusterGroup ∈ mapLayers (world s)
           ∧ ∀ k p, layerRefs (world s) !! k = Some p →
                    Marker (marker p) ∉ mapLayers (world s)
      else (MarkerClusterGroup ∉ mapLayers (world s))
           ∧ ∀ k p, layerRefs (world s) !! k = Some p →
                    Marker (marker p) ∈ mapLayers (world s);
  inv_dom : ∀ key, is_Some (document (world s) !! key) →
      ∃ k, k ∈ catalogIds ∧ (key = slider_id k ∨ key = label_id k)
}.

(** Two worlds that differ at most in the layers on the map and in the log
    of calls. *)
Definition sameExceptLayers (w' w : World) : Prop :=
  mapRef w' = mapRef w ∧ heatmapLayerRef w' = heatmapLayerRef w
  ∧ markerClusterGroupRef w' = markerClusterGroupRef w
  ∧ layerRefs w' = layerRefs w ∧ clusterLayers w' = clusterLayers w
  ∧ circleRadius w' = circleRadius w ∧ markerIcon w' = markerIcon w
  ∧ document w' = document w.

(** A layer that is not a circle. *)
Definition notCircle (x : Layer) : Prop :=
  match x with Circle _ => False | _ => True end.

(** What holds of the layers on the map, for a value [sh] of
    [showHeatmap]: the tile layer is there, the heat layer is there exactly
    when [sh] holds, a circle is there exactly when its marker is, and a
    marker that is there is one of [layerRefs]. *)
Definition layersInv (sh : bool) (w : World) : Prop :=
  TileLayer ∈ mapLayers w
  ∧ (HeatLayer ∈ mapLayers w ↔ sh = true)
  ∧ (∀ i, Circle i ∈ mapLayers w ↔ Marker i ∈ mapLayers w)
  ∧ (∀ i, Marker i ∈ mapLayers w →
          ∃ k p, layerRefs w !! k = Some p ∧ marker p = i).

(** Every marker carries the icon made for its record and for the current
    value of [showLabels]. *)
Definition iconsInv (s : State) : Prop :=
  ∀ i X, LOCATIONS !! i = Some X →
         markerIcon (world s) !! i = Some (createMarkerIcon X (showLabels (hooks s))).

(** ** Facts about the JavaScript fragment *)

Lemma parse_digits_pos (d : Decimal.uint) (acc : positive) :
  parse_digits (NilEmpty.string_of_uint d) (Z.pos acc) = Z.pos (Pos.of_uint_acc d acc).
Proof.
  revert acc. induction d as [|d IH|d IH|d IH|d IH|d IH|d IH|d IH|d IH|d IH|d IH];
    intros acc; [reflexivity|..];
    cbn [NilEmpty.string_of_uint parse_digits Pos.of_uint_acc];
    change (digit_value _) with (Some 0) || change (digit_value _) with (Some 1)
    || change (digit_value _) with (Some 2) || change (digit_value _) with (Some 3)
    || change (digit_value _) with (Some 4) || change (digit_value _) with (Some 5)
    || change (digit_value _) with (Some 6) || change (digit_value _) with (Some 7)
    || change (digit_value _) with (Some 8) || change (digit_value _) with (Some 9);
    cbv iota; rewrite <- IH; f_equal; lia.
Qed.

Lemma parse_digits_zero (d : Decimal.uint) :
  parse_digits (NilEmpty.string_of_uint d) 0 = Z.of_N (Pos.of_uint d).
Proof.
  induction d as [|d IH|d IH|d IH|d IH|d IH|d IH|d IH|d IH|d IH|d IH];
    [reflexivity | exact IH | ..];
    cbn [NilEmpty.string_of_uint parse_digits Pos.of_uint];
    (change (digit_value _) with (Some 1) || change (digit_value _) with (Some 2)
    || change (digit_value _) with (Some 3)
    || change (digit_value _) with (Some 4) || change (digit_value _) with (Some 5)
    || change (digit_value _) with (Some 6) || change (digit_value _) with (Some 7)
    || change (digit_value _) with (Some 8) || change (digit_value _) with (Some 9));
    cbv iota; cbn [Z.of_N]; rewrite <- parse_digits_pos; reflexivity.
Qed.

Lemma parse_unsigned_digits (d : Decimal.uint) :
  d ≠ Decimal.Nil →
  parse_unsigned (NilEmpty.string_of_uint d) = Some (Z.of_N (Pos.of_uint d)).
Proof.
  intros Hd. rewrite <- parse_digits_zero.
  destruct d; [done|..]; reflexivity.
Qed.

Lemma parseInt_digits (d : Decimal.uint) :
  d ≠ Decimal.Nil →
  parseInt (NilEmpty.string_of_uint d) = Int (Z.of_N (Pos.of_uint d)).
Proof.
  intros Hd. pose proof (parse_unsigned_digits d Hd) as H.
  destruct d; [done|..]; unfold parseInt;
    cbn [NilEmpty.string_of_uint trim_start] in *;
    (change (is_white_space _) with false); cbv iota; rewrite H; reflexivity.
Qed.

Lemma parseInt_minus_digits (d : Decimal.uint) :
  d ≠ Decimal.Nil →
  parseInt (String "-" (NilEmpty.string_of_uint d)) = Int (- Z.of_N (Pos.of_uint d)).
Proof.
  intros Hd. unfold parseInt. cbn [trim_start].
  change (is_white_space "-") with false. cbv iota.
  rewrite (parse_unsigned_digits d Hd). reflexivity.
Qed.

Lemma parseInt_ToString (n : number) : parseInt (ToString n) = n.
Proof.
  destruct n as [[|p|p]|]; try reflexivity.
  - unfold ToString, Z_ToString. cbn [Z.to_int NilZero.string_of_int].
    pose proof (Unsigned.to_uint_nonnil p) as Hn.
    unfold NilZero.string_of_uint.
    destruct (Pos.to_uint p) eqn:E; [done|..]; rewrite <- E in *;
      rewrite parseInt_digits by done; rewrite Unsigned.of_to; reflexivity.
  - unfold ToString, Z_ToString. cbn [Z.to_int NilZero.string_of_int].
    pose proof (Unsigned.to_uint_nonnil p) as Hn.
    unfold NilZero.string_of_uint.
    destruct (Pos.to_uint p) eqn:E; [done|..]; rewrite <- E in *;
      rewrite parseInt_minus_digits by done; rewrite Unsigned.of_to; reflexivity.
Qed.

Lemma ToString_inj (n m : number) : ToString n = ToString m → n = m.
Proof.
  intros H. rewrite <- (parseInt_ToString n), <- (parseInt_ToString m). by rewrite H.
Qed.



Lemma append_cons (a : ascii) (s t : string) :
  String a s +:+ t = String a (s +:+ t).
Proof. reflexivity. Qed.

Lemma append_empty (t : string) : "" +:+ t = t.
Proof. reflexivity. Qed.










(** ** The runtime, setter by setter *)

Lemma with_showHeatmap_same (h : Hooks) : with_showHeatmap (showHeatmap h) h = h.
Proof. by destruct h. Qed.
Lemma with_showLabels_same (h : Hooks) : with_showLabels (showLabels h) h = h.
Proof. by destruct h. Qed.
Lemma with_isClusteringEnabled_same (h : Hooks) :
  with_isClusteringEnabled (isClusteringEnabled h) h = h.
Proof. by destruct h. Qed.
Lemma with_isSynced_same (h : Hooks) : with_isSynced (isSynced h) h = h.
Proof. by destruct h. Qed.
Lemma with_uniformRadius_same (h : Hooks) : with_uniformRadius (uniformRadius h) h = h.
Proof. by destruct h. Qed.

Lemma eqb_true_eq (a b : bool) : Bool.eqb a b = true → b = a.
Proof. by destruct a, b. Qed.

Lemma handle_SetSearchTerm (s : State) (q : string) :
  handle (SetSearchTerm q) s = mkState (with_searchTerm q (hooks s)) (world s).
Proof.
  unfold handle, render, commit, effects, changed. cbn.
  by rewrite !Bool.eqb_reflx, Z.eqb_refl.
Qed.

Lemma handle_SetShowHeatmap (s : State) (b : bool) :
  handle (SetShowHeatmap b) s =
  mkState (with_showHeatmap b (hooks s))
    (if Bool.eqb (showHeatmap (hooks s)) b then world s
     else heatmapEffect b (world s)).
Proof.
  unfold handle, render, commit, effects, changed. cbn.
  rewrite !Bool.eqb_reflx, Z.eqb_refl. cbn.
  by destruct (Bool.eqb _ b).
Qed.

Lemma handle_SetShowLabels (s : State) (b : bool) :
  handle (SetShowLabels b) s =
  mkState (with_showLabels b (hooks s))
    (if Bool.eqb (showLabels (hooks s)) b then world s
     else labelsEffect b (world s)).
Proof.
  unfold handle, render, commit, effects, changed. cbn.
  rewrite !Bool.eqb_reflx, Z.eqb_refl. cbn.
  by destruct (Bool.eqb _ b).
Qed.

Lemma handle_SetIsClusteringEnabled (s : State) (b : bool) :
  handle (SetIsClusteringEnabled b) s =
  mkState (with_isClusteringEnabled b (hooks s))
    (if Bool.eqb (isClusteringEnabled (hooks s)) b then world s
     else clusteringEffect b (world s)).
Proof.
  unfold handle, render, commit, effects, changed. cbn.
  rewrite !Bool.eqb_reflx, Z.eqb_refl. cbn.
  by destruct (Bool.eqb _ b).
Qed.

Lemma setRadii_eq (a : SetStateAction (gmap number Z)) (s : State) :
  setRadii a s =
  mkState (with_radii (applyAction (radii (hooks s)) a) (hooks s))
    (radiiEffect (applyAction (radii (hooks s)) a) (world s)).
Proof.
  unfold setRadii, render, commit, effects, changed. cbn.
  by rewrite !Bool.eqb_reflx, Z.eqb_refl.
Qed.

(** The render that follows a change of [isSynced] or [uniformRadius]: the
    synchronization effect runs, and when [isSynced] holds its one
    [setRadii] call leads to a second render, where the circles follow. *)
Lemma render_sync (s : State) (h' : Hooks) :
  showHeatmap h' = showHeatmap (hooks s) →
  showLabels h' = showLabels (hooks s) →
  isClusteringEnabled h' = isClusteringEnabled (hooks s) →
  (isSynced h' ≠ isSynced (hooks s) ∨ uniformRadius h' ≠ uniformRadius (hooks s)) →
  render h' false s =
  if isSynced h'
  then mkState (with_radii (newRadii (radii h') (uniformRadius h')) h')
         (radiiEffect (newRadii (radii h') (uniformRadius h')) (world s))
  else mkState h' (world s).
Proof.
  intros E1 E2 E3 Hne. unfold render, commit, effects, changed. cbn.
  rewrite E1, E2, E3, !Bool.eqb_reflx. cbn.
  assert (negb (Bool.eqb (isSynced (hooks s)) (isSynced h'))
          || negb (uniformRadius (hooks s) =? uniformRadius h') = true) as ->.
  { destruct Hne as [Hne|Hne].
    - destruct (isSynced (hooks s)), (isSynced h'); done.
    - apply orb_true_iff. right. apply negb_true_iff, Z.eqb_neq. done. }
  unfold syncEffect. by destruct (isSynced h').
Qed.

Lemma render_same (s : State) (h' : Hooks) :
  h' = hooks s → render h' false s = s.
Proof.
  intros ->. unfold render, commit, effects, changed. cbn.
  rewrite !Bool.eqb_reflx, Z.eqb_refl. cbn. by destruct s.
Qed.

Lemma handle_SetIsSynced (s : State) (b : bool) :
  handle (SetIsSynced b) s =
  if Bool.eqb (isSynced (hooks s)) b then s
  else if b
    then mkState
           (with_radii (newRadii (radii (hooks s)) (uniformRadius (hooks s)))
              (with_isSynced true (hooks s)))
           (radiiEffect (newRadii (radii (hooks s)) (uniformRadius (hooks s))) (world s))
    else mkState (with_isSynced false (hooks s)) (world s).
Proof.
  cbn [handle]. destruct (Bool.eqb (isSynced (hooks s)) b) eqn:E.
  - apply eqb_true_eq in E as ->. apply render_same, with_isSynced_same.
  - rewrite render_sync; try done.
    + by destruct b.
    + left. cbn [isSynced with_isSynced]. intros Hb. subst b.
      by rewrite Bool.eqb_reflx in E.
Qed.

Lemma handle_SetUniformRadius (s : State) (v : Z) :
  handle (SetUniformRadius v) s =
  if uniformRadius (hooks s) =? v then s
  else if isSynced (hooks s)
    then mkState
           (with_radii (newRadii (radii (hooks s)) v) (with_uniformRadius v (hooks s)))
           (radiiEffect (newRadii (radii (hooks s)) v) (world s))
    else mkState (with_uniformRadius v (hooks s)) (world s).
Proof.
  cbn [handle]. destruct (Z.eqb_spec (uniformRadius (hooks s)) v) as [<-|Hne].
  - apply render_same, with_uniformRadius_same.
  - rewrite render_sync; try done. right. cbn. done.
Qed.

(** ** The object built by the synchronization *)

Lemma elem_of_keys_map_to_list {V} (m : gmap number V) (k : number) :
  k ∈ (map_to_list m).*1 ↔ is_Some (m !! k).
Proof.
  rewrite list_elem_of_fmap. split.
  - intros ([k' v] & -> & H). apply elem_of_map_to_list in H. by exists v.
  - intros [v H]. exists (k, v). split; [done|]. by apply elem_of_map_to_list.
Qed.

Lemma newRadii_fold (l : list (number * Z)) (u : Z) (acc : gmap number Z) (k : number) :
  fold_left (λ acc id, <[parseInt id := u]> acc) ((λ kv, ToString kv.1) <$> l) acc !! k
  = if decide (k ∈ l.*1) then Some u else acc !! k.
Proof.
  revert acc. induction l as [|[k0 r0] l IH]; intros acc.
  - cbn. by rewrite decide_False by apply not_elem_of_nil.
  - cbn [fmap list_fmap fold_left fst]. rewrite IH, parseInt_ToString.
    destruct (decide (k ∈ l.*1)) as [Hin|Hin].
    + rewrite decide_True; [done|]. by apply list_elem_of_further.
    + destruct (decide (k = k0)) as [->|Hne].
      * rewrite lookup_insert_eq, decide_True; [done|]. apply list_elem_of_here.
      * rewrite lookup_insert_ne by done. rewrite decide_False; [done|].
        intros [?|?]%elem_of_cons; done.
Qed.

(** Every key of [radii] is kept, with the uniform radius as its value. *)
Lemma newRadii_eq (radii : gmap number Z) (u : Z) :
  newRadii radii u = (λ _, u) <$> radii.
Proof.
  apply map_eq. intros k. unfold newRadii, Object_keys.
  rewrite newRadii_fold, lookup_fmap, lookup_empty.
  destruct (decide (k ∈ (map_to_list radii).*1)) as [Hin|Hin].
  - apply elem_of_keys_map_to_list in Hin as [v ->]. done.
  - destruct (radii !! k) as [v|] eqn:E; [|done].
    exfalso. apply Hin, elem_of_keys_map_to_list. by exists v.
Qed.


(** C1.  When the uniform radius changes while [isSynced] holds, or when
    [isSynced] becomes true, the synchronization effect makes one
    [setRadii] call, whose argument is a whole map: the old keys, each with
    the uniform radius.  Once the event is handled, [radii] is that map and
    every entry of it equals the uniform radius. *)
Theorem sync_overwrites_all (s : State) (e : Event) :
  syncTrigger e s →
  let s' := handle e s in
  isSynced (hooks s') = true
  ∧ syncEffect (afterSetter e (hooks s)) = [SetValue (radii (hooks s'))]
  ∧ radii (hooks s') = (λ _, uniformRadius (hooks s')) <$> radii (hooks s)
  ∧ (∀ k r, radii (hooks s') !! k = Some r → r = uniformRadius (hooks s')).
Proof.
  intros Htr s'. subst s'.
  assert (∀ (m : gmap number Z) (u : Z) (k : number) (r : Z),
            ((λ _ : Z, u) <$> m) !! k = Some r → r = u) as Hall.
  { intros m u k r. rewrite lookup_fmap. destruct (m !! k); [|done]. by intros [= <-]. }
  destruct e as [| | | | | |b|v| |]; try done; cbn [syncTrigger] in Htr.
  - destruct Htr as [-> Hs]. rewrite handle_SetIsSynced, Hs. cbn.
    unfold syncEffect. cbn. rewrite newRadii_eq. eauto.
  - destruct Htr as [Hs Hv]. rewrite handle_SetUniformRadius, Hs.
    destruct (Z.eqb_spec (uniformRadius (hooks s)) v) as [E|_]; [done|]. cbn.
    unfold syncEffect. cbn. rewrite Hs, newRadii_eq. eauto.
Qed.

(** ** The effect that draws the radii *)

Lemma fold_left_invariant {A B} (P : A → Prop) (f : A → B → A) (l : list B) (a : A) :
  P a → (∀ a b, P a → P (f a b)) → P (fold_left f l a).
Proof.
  intros Ha Hf. revert a Ha. induction l as [|b l IH]; intros a Ha; [done|].
  cbn. apply IH, Hf, Ha.
Qed.

Lemma ToString_not_v (n : number) (s : string) : ToString n ≠ String "v" s.
Proof.
  intros H. pose proof (parseInt_ToString n) as Hn. rewrite H in Hn.
  change (parseInt (String "v" s)) with NaN in Hn. by subst n.
Qed.

Lemma slider_id_inj (k k' : number) : slider_id k = slider_id k' → k = k'.
Proof.
  unfold slider_id. rewrite !append_cons, !append_empty.
  intros [= H]. by apply ToString_inj.
Qed.

Lemma label_id_inj (k k' : number) : label_id k = label_id k' → k = k'.
Proof.
  unfold label_id. rewrite !append_cons, !append_empty.
  intros [= H]. by apply ToString_inj.
Qed.

Lemma slider_id_label_id (k k' : number) : slider_id k ≠ label_id k'.
Proof.
  unfold slider_id, label_id. rewrite !append_cons, !append_empty.
  intros [= H]. by apply ToString_not_v in H.
Qed.

(** What the effect leaves alone. *)
Lemma radiiEntry_frame (w : World) (entry : string * Z) :
  let w' := radiiEntry w entry in
  mapRef w' = mapRef w ∧ heatmapLayerRef w' = heatmapLayerRef w
  ∧ markerClusterGroupRef w' = markerClusterGroupRef w
  ∧ layerRefs w' = layerRefs w ∧ mapLayers w' = mapLayers w
  ∧ clusterLayers w' = clusterLayers w ∧ markerIcon w' = markerIcon w.
Proof.
  destruct entry as [id r]. unfold radiiEntry.
  destruct (layerRefs w !! parseInt id) as [p|]; [|done]. cbn.
  destruct (document w !! slider_id (parseInt id)); [|done]. cbn.
  by destruct (<[_ := _]> (document w) !! label_id (parseInt id)).
Qed.

Lemma radiiEffect_frame (radii : gmap number Z) (w : World) :
  let w' := radiiEffect radii w in
  mapRef w' = mapRef w ∧ heatmapLayerRef w' = heatmapLayerRef w
  ∧ markerClusterGroupRef w' = markerClusterGroupRef w
  ∧ layerRefs w' = layerRefs w ∧ mapLayers w' = mapLayers w
  ∧ clusterLayers w' = clusterLayers w ∧ markerIcon w' = markerIcon w.
Proof.
  unfold radiiEffect. apply fold_left_invariant; [done|].
  intros w1 entry (? & ? & ? & ? & ? & ? & ?).
  destruct (radiiEntry_frame w1 entry) as (? & ? & ? & ? & ? & ? & ?).
  repeat split; congruence.
Qed.

(** An entry changes the circle and the popup of its own id only. *)
Lemma radiiEntry_own (w : World) (k : number) (r : Z) (p : LayerPair) :
  layerRefs w !! k = Some p →
  let w' := radiiEntry w (ToString k, r) in
  circleRadius w' !! circle p = Some (r * 1000)
  ∧ (is_Some (document w !! slider_id k) → is_Some (document w !! label_id k) →
     document w' !! slider_id k = Some (Z_ToString r)
     ∧ document w' !! label_id k = Some (Z_ToString r)).
Proof.
  intros Hp. unfold radiiEntry. rewrite parseInt_ToString, Hp. cbn. split.
  - destruct (document w !! slider_id k); cbn.
    + destruct (<[_ := _]> (document w) !! label_id k); cbn; apply lookup_insert_eq.
    + apply lookup_insert_eq.
  - intros [x ->] [y Hy]. cbn.
    rewrite lookup_insert_ne by apply slider_id_label_id. rewrite Hy. cbn.
    rewrite lookup_insert_eq.
    rewrite lookup_insert_ne by (apply not_eq_sym, slider_id_label_id).
    by rewrite lookup_insert_eq.
Qed.

Lemma radiiEntry_other (w : World) (k' : number) (r : Z) :
  let w' := radiiEntry w (ToString k', r) in
  (∀ c, (∀ p, layerRefs w !! k' = Some p → circle p ≠ c) →
        circleRadius w' !! c = circleRadius w !! c)
  ∧ (∀ k, k ≠ k' →
          document w' !! slider_id k = document w !! slider_id k
          ∧ document w' !! label_id k = document w !! label_id k)
  ∧ (∀ key, is_Some (document w' !! key) ↔ is_Some (document w !! key)).
Proof.
  unfold radiiEntry. rewrite parseInt_ToString.
  destruct (layerRefs w !! k') as [p|] eqn:Hp; [|done]. cbn.
  assert (∀ (d : gmap string string) (a v : string) (key : string),
            is_Some (d !! a) → is_Some (<[a := v]> d !! key) ↔ is_Some (d !! key)) as Hkeys.
  { intros d a v key Ha. destruct (decide (a = key)) as [->|Hne].
    - rewrite lookup_insert_eq. split; [done | by eauto].
    - by rewrite lookup_insert_ne. }
  split; [|split].
  - intros c Hc. specialize (Hc p eq_refl).
    destruct (document w !! slider_id k'); cbn.
    + destruct (<[_ := _]> (document w) !! label_id k'); cbn; by rewrite lookup_insert_ne.
    + by rewrite lookup_insert_ne.
  - intros k Hk.
    assert (slider_id k' ≠ slider_id k) by (intros ?%slider_id_inj; done).
    assert (label_id k' ≠ label_id k) by (intros ?%label_id_inj; done).
    assert (slider_id k' ≠ label_id k) by apply slider_id_label_id.
    assert (label_id k' ≠ slider_id k) by apply not_eq_sym, slider_id_label_id.
    destruct (document w !! slider_id k'); cbn; [|done].
    destruct (<[_ := _]> (document w) !! label_id k'); cbn;
      by rewrite ?lookup_insert_ne.
  - intros key.
    destruct (document w !! slider_id k') as [x|] eqn:Hs; cbn; [|done].
    destruct (<[_ := _]> (document w) !! label_id k') as [y|] eqn:Hl; cbn.
    + rewrite Hkeys by eauto. apply Hkeys. eauto.
    + apply Hkeys. eauto.
Qed.

Lemma radiiEntries_other (l : list (number * Z)) (w : World) :
  let w' := fold_left radiiEntry ((λ kv, (ToString kv.1, kv.2)) <$> l) w in
  (∀ c, (∀ k p, k ∈ l.*1 → layerRefs w !! k = Some p → circle p ≠ c) →
        circleRadius w' !! c = circleRadius w !! c)
  ∧ (∀ k, k ∉ l.*1 →
          document w' !! slider_id k = document w !! slider_id k
          ∧ document w' !! label_id k = document w !! label_id k)
  ∧ (∀ key, is_Some (document w' !! key) ↔ is_Some (document w !! key)).
Proof.
  revert w. induction l as [|[k' r] l IH]; intros w; [done|].
  cbn [fmap list_fmap fold_left fst snd].
  destruct (IH (radiiEntry w (ToString k', r))) as (IH1 & IH2 & IH3).
  destruct (radiiEntry_other w k' r) as (H1 & H2 & H3).
  destruct (radiiEntry_frame w (ToString k', r)) as (_ & _ & _ & Hlr & _).
  split; [|split].
  - intros c Hc. rewrite IH1, H1; [done|..].
    + intros p Hp. apply (Hc k'); [apply list_elem_of_here | done].
    + intros k p Hk Hp. rewrite Hlr in Hp. apply (Hc k); [|done].
      by apply list_elem_of_further.
  - intros k [Hk Hkl]%not_elem_of_cons.
    destruct (IH2 k Hkl) as [-> ->]. by apply H2.
  - intros key. by rewrite IH3, H3.
Qed.

Lemma radiiEntries_own (l : list (number * Z)) (w : World) (k : number) (r : Z)
    (p : LayerPair) :
  NoDup l.*1 → (k, r) ∈ l → layerRefs w !! k = Some p →
  (∀ k' p', layerRefs w !! k' = Some p' → circle p' = circle p → k' = k) →
  let w' := fold_left radiiEntry ((λ kv, (ToString kv.1, kv.2)) <$> l) w in
  circleRadius w' !! circle p = Some (r * 1000)
  ∧ (is_Some (document w !! slider_id k) → is_Some (document w !! label_id k) →
     document w' !! slider_id k = Some (Z_ToString r)
     ∧ document w' !! label_id k = Some (Z_ToString r)).
Proof.
  revert w. induction l as [|[k0 r0] l IH]; intros w Hnd Hin Hp Hinj.
  { by apply elem_of_nil in Hin. }
  cbn [fmap list_fmap fst] in Hnd. apply NoDup_cons in Hnd as [Hk0 Hnd].
  cbn [fmap list_fmap fold_left fst snd].
  destruct (radiiEntry_frame w (ToString k0, r0)) as (_ & _ & _ & Hlr & _).
  apply elem_of_cons in Hin as [[= <- <-]|Hin].
  - destruct (radiiEntry_own w k r p Hp) as [Hc Hd].
    destruct (radiiEntries_other l (radiiEntry w (ToString k, r))) as (H1 & H2 & H3).
    cbn zeta. split.
    + rewrite H1; [done|]. intros k' p' Hk' Hp' Hcp. rewrite Hlr in Hp'.
      apply Hinj in Hp'; [|done]. by subst k'.
    + intros Hs Hl. destruct (H2 k Hk0) as [-> ->]. by apply Hd.
  - assert (k ≠ k0) as Hne.
    { intros ->. apply Hk0. apply list_elem_of_fmap. by exists (k0, r). }
    destruct (radiiEntry_other w k0 r0) as (_ & H2 & H3).
    destruct (H2 k Hne) as [Hs Hl].
    destruct (IH (radiiEntry w (ToString k0, r0))) as [Hc Hd];
      [done | done | by rewrite Hlr | by rewrite Hlr |].
    cbn zeta. split; [done|]. intros Hs' Hl'. apply Hd; by rewrite ?Hs, ?Hl.
Qed.

Lemma radiiEffect_own (radii : gmap number Z) (w : World) (k : number) (r : Z)
    (p : LayerPair) :
  radii !! k = Some r → layerRefs w !! k = Some p →
  (∀ k' p', layerRefs w !! k' = Some p' → circle p' = circle p → k' = k) →
  let w' := radiiEffect radii w in
  circleRadius w' !! circle p = Some (r * 1000)
  ∧ (is_Some (document w !! slider_id k) → is_Some (document w !! label_id k) →
     document w' !! slider_id k = Some (Z_ToString r)
     ∧ document w' !! label_id k = Some (Z_ToString r)).
Proof.
  intros Hr Hp Hinj. unfold radiiEffect, Object_entries.
  apply radiiEntries_own; try done.
  - apply NoDup_fst_map_to_list.
  - by apply elem_of_map_to_list.
Qed.

Lemma radiiEffect_other (radii : gmap number Z) (w : World) :
  let w' := radiiEffect radii w in
  (∀ c, (∀ k p, is_Some (radii !! k) → layerRefs w !! k = Some p → circle p ≠ c) →
        circleRadius w' !! c = circleRadius w !! c)
  ∧ (∀ key, is_Some (document w' !! key) ↔ is_Some (document w !! key)).
Proof.
  unfold radiiEffect, Object_entries.
  destruct (radiiEntries_other (map_to_list radii) w) as (H1 & _ & H3).
  split; [|done]. intros c Hc. apply H1. intros k p Hk. apply Hc.
  by apply elem_of_keys_map_to_list.
Qed.

(** ** Layers on the map *)

Lemma sameExceptLayers_refl (w : World) : sameExceptLayers w w.
Proof. by repeat split. Qed.

Lemma sameExceptLayers_trans (w1 w2 w3 : World) :
  sameExceptLayers w1 w2 → sameExceptLayers w2 w3 → sameExceptLayers w1 w3.
Proof.
  intros (? & ? & ? & ? & ? & ? & ? & ?) (? & ? & ? & ? & ? & ? & ? & ?).
  repeat split; congruence.
Qed.

Lemma hasLayer_true (l : Layer) (w : World) : hasLayer l w = true ↔ l ∈ mapLayers w.
Proof. unfold hasLayer. apply bool_decide_eq_true. Qed.

Lemma hasLayer_false (l : Layer) (w : World) : hasLayer l w = false ↔ l ∉ mapLayers w.
Proof. unfold hasLayer. apply bool_decide_eq_false. Qed.

Lemma addLayer_spec (l : Layer) (w : World) :
  sameExceptLayers (addLayer l w) w
  ∧ ∀ x, notCircle x → x ∈ mapLayers (addLayer l w) ↔ x ∈ mapLayers w ∨ x = l.
Proof.
  unfold addLayer. destruct (hasLayer l w) eqn:El.
  - apply hasLayer_true in El. split; [by repeat split|].
    intros x _. cbn. set_solver.
  - split.
    + destruct l; try by repeat split.
      unfold onMarkerAdd. by destruct (negb _); repeat split.
    + intros x Hx. destruct l; cbn; try set_solver.
      unfold onMarkerAdd. destruct (negb _); cbn; [|set_solver].
      destruct x; try done; set_solver.
Qed.

Lemma removeLayer_spec (l : Layer) (w : World) :
  sameExceptLayers (removeLayer l w) w
  ∧ ∀ x, notCircle x → x ∈ mapLayers (removeLayer l w) ↔ x ∈ mapLayers w ∧ x ≠ l.
Proof.
  unfold removeLayer. destruct (hasLayer l w) eqn:El; cbn [negb].
  - split.
    + destruct l; try by repeat split.
      unfold onMarkerRemove. by destruct (hasLayer (Circle _) _); repeat split.
    + intros x Hx. destruct l; cbn; try set_solver.
      unfold onMarkerRemove. destruct (hasLayer (Circle _) _); cbn; [|set_solver].
      destruct x; try done; set_solver.
  - apply hasLayer_false in El. split; [by repeat split|].
    intros x _. cbn. set_solver.
Qed.

(** Lines 232-246: the heat layer is the only layer that can change. *)
Lemma heatmapEffect_spec (b : bool) (w : World) :
  sameExceptLayers (heatmapEffect b w) w
  ∧ ∀ x, notCircle x → x ≠ HeatLayer →
         x ∈ mapLayers (heatmapEffect b w) ↔ x ∈ mapLayers w.
Proof.
  unfold heatmapEffect.
  destruct (negb (mapRef w) || negb (heatmapLayerRef w));
    [split; [apply sameExceptLayers_refl | done]|].
  destruct b.
  - destruct (negb (hasLayer HeatLayer w));
      [|split; [apply sameExceptLayers_refl | done]].
    destruct (addLayer_spec HeatLayer w) as [Hs Hm]. split; [done|].
    intros x Hx Hne. rewrite Hm by done. naive_solver.
  - destruct (hasLayer HeatLayer w);
      [|split; [apply sameExceptLayers_refl | done]].
    destruct (removeLayer_spec HeatLayer w) as [Hs Hm]. split; [done|].
    intros x Hx Hne. rewrite Hm by done. naive_solver.
Qed.

(** Lines 260-268: only the icons change. *)
Lemma labelsEffect_frame (b : bool) (w : World) :
  let w' := labelsEffect b w in
  mapRef w' = mapRef w ∧ heatmapLayerRef w' = heatmapLayerRef w
  ∧ markerClusterGroupRef w' = markerClusterGroupRef w
  ∧ layerRefs w' = layerRefs w ∧ clusterLayers w' = clusterLayers w
  ∧ circleRadius w' = circleRadius w ∧ mapLayers w' = mapLayers w
  ∧ document w' = document w.
Proof.
  unfold labelsEffect. apply fold_left_invariant; [done|].
  intros w1 loc (? & ? & ? & ? & ? & ? & ? & ?).
  destruct (layerRefs w1 !! Int (id loc)); cbn; [|done].
  repeat split; done.
Qed.

Lemma elem_of_Object_values {V} (o : gmap number V) (v : V) :
  v ∈ Object_values o ↔ ∃ k, o !! k = Some v.
Proof.
  unfold Object_values. rewrite list_elem_of_fmap. split.
  - intros ([k v'] & -> & H). exists k. by apply elem_of_map_to_list.
  - intros [k H]. exists (k, v). split; [done|]. by apply elem_of_map_to_list.
Qed.

Lemma remove_markers_spec (ps : list LayerPair) (w : World) :
  let w' :=
    fold_left
      (λ w refs, if hasLayer (Marker (marker refs)) w
                 then removeLayer (Marker (marker refs)) w else w) ps w in
  sameExceptLayers w' w
  ∧ ∀ x, notCircle x →
         x ∈ mapLayers w' ↔ x ∈ mapLayers w ∧ ∀ p, p ∈ ps → x ≠ Marker (marker p).
Proof.
  revert w. induction ps as [|p ps IH]; intros w.
  { split; [apply sameExceptLayers_refl|]. intros x _. cbn. split; [|naive_solver].
    intros H. split; [done|]. intros p Hp. by apply elem_of_nil in Hp. }
  cbn [fold_left]. set (w1 := if hasLayer _ w then _ else w).
  assert (sameExceptLayers w1 w
          ∧ ∀ x, notCircle x →
                 x ∈ mapLayers w1 ↔ x ∈ mapLayers w ∧ x ≠ Marker (marker p)) as [Hs1 Hm1].
  { subst w1. destruct (hasLayer (Marker (marker p)) w) eqn:E.
    - apply removeLayer_spec.
    - apply hasLayer_false in E. split; [apply sameExceptLayers_refl|].
      intros x _. split; [|naive_solver]. intros Hx. split; [done|]. by intros ->. }
  destruct (IH w1) as [Hs Hm]. split; [by eapply sameExceptLayers_trans|].
  intros x Hx. rewrite Hm, Hm1 by done. split.
  - intros [[H1 H2] H3]. split; [done|]. intros q [->|Hq]%elem_of_cons; auto.
  - intros [H1 H2]. split; [split|]; [done|..].
    + apply H2, list_elem_of_here.
    + intros q Hq. by apply H2, list_elem_of_further.
Qed.

Lemma add_markers_spec (ps : list LayerPair) (w : World) :
  let w' :=
    fold_left
      (λ w refs, if negb (hasLayer (Marker (marker refs)) w)
                 then addLayer (Marker (marker refs)) w else w) ps w in
  sameExceptLayers w' w
  ∧ ∀ x, notCircle x →
         x ∈ mapLayers w' ↔ x ∈ mapLayers w ∨ ∃ p, p ∈ ps ∧ x = Marker (marker p).
Proof.
  revert w. induction ps as [|p ps IH]; intros w.
  { split; [apply sameExceptLayers_refl|]. intros x _. cbn. split; [by left|].
    intros [H|(p & Hp & _)]; [done|]. by apply elem_of_nil in Hp. }
  cbn [fold_left]. set (w1 := if negb (hasLayer _ w) then _ else w).
  assert (sameExceptLayers w1 w
          ∧ ∀ x, notCircle x →
                 x ∈ mapLayers w1 ↔ x ∈ mapLayers w ∨ x = Marker (marker p)) as [Hs1 Hm1].
  { subst w1. destruct (hasLayer (Marker (marker p)) w) eqn:E; cbn [negb].
    - apply hasLayer_true in E. split; [apply sameExceptLayers_refl|].
      intros x _. split; [by left|]. by intros [?| ->].
    - apply addLayer_spec. }
  destruct (IH w1) as [Hs Hm]. split; [by eapply sameExceptLayers_trans|].
  intros x Hx. rewrite Hm, Hm1 by done. split.
  - intros [[H| ->]|(q & Hq & ->)]; [by left|right..].
    + exists p. split; [apply list_elem_of_here | done].
    + exists q. split; [by apply list_elem_of_further | done].
  - intros [H|(q & [->|Hq]%elem_of_cons & ->)]; [by left; left|by left; right|].
    right. by exists q.
Qed.

(** Lines 271-299: the effect leaves the markers in the mode it is run
    for, whatever it finds. *)
Lemma clusteringEffect_spec (b : bool) (w : World) :
  mapRef w = true → markerClusterGroupRef w = true →
  let w' := clusteringEffect b w in
  sameExceptLayers w' w
  ∧ if b
    then MarkerClusterGroup ∈ mapLayers w'
         ∧ ∀ k p, layerRefs w !! k = Some p → Marker (marker p) ∉ mapLayers w'
    else (MarkerClusterGroup ∉ mapLayers w')
         ∧ ∀ k p, layerRefs w !! k = Some p → Marker (marker p) ∈ mapLayers w'.
Proof.
  intros Hm Hc. unfold clusteringEffect. rewrite Hm, Hc. cbn [negb orb].
  destruct b.
  - destruct (remove_markers_spec (Object_values (layerRefs w)) w) as [Hs Hl].
    cbn zeta in Hs, Hl. set (w1 := fold_left _ _ w) in *.
    assert (∀ k p, layerRefs w !! k = Some p → Marker (marker p) ∉ mapLayers w1) as Hno.
    { intros k p Hp Hin. apply Hl in Hin as [_ Hin]; [|done].
      apply (Hin p); [|done]. apply elem_of_Object_values. by exists k. }
    destruct (hasLayer MarkerClusterGroup w1) eqn:E; cbn [negb].
    + apply hasLayer_true in E. done.
    + destruct (addLayer_spec MarkerClusterGroup w1) as [Hs' Hl'].
      split; [by eapply sameExceptLayers_trans|]. split.
      * apply Hl'; [done | by right].
      * intros k p Hp Hin. apply Hl' in Hin as [Hin|?]; [|done..].
        by apply (Hno k p).
  - set (w1 := if hasLayer MarkerClusterGroup w then _ else w).
    assert (sameExceptLayers w1 w ∧ MarkerClusterGroup ∉ mapLayers w1) as [Hs1 Hn1].
    { subst w1. destruct (hasLayer MarkerClusterGroup w) eqn:E.
      - destruct (removeLayer_spec MarkerClusterGroup w) as [Hs Hl].
        split; [done|]. intros Hin. apply Hl in Hin as [_ ?]; done.
      - apply hasLayer_false in E. split; [apply sameExceptLayers_refl | done]. }
    destruct (add_markers_spec (Object_values (layerRefs w1)) w1) as [Hs Hl].
    cbn zeta in Hs, Hl. split; [by eapply sameExceptLayers_trans|]. split.
    + intros Hin. apply Hl in Hin as [?|(p & _ & ?)]; done.
    + intros k p Hp. apply Hl; [done|]. right. exists p. split; [|done].
      apply elem_of_Object_values. exists k.
      destruct Hs1 as (_ & _ & _ & -> & _). done.
Qed.

(** ** The mount *)

Lemma elem_of_catalogIds (k : number) :
  k ∈ catalogIds ↔ ∃ loc, loc ∈ LOCATIONS ∧ k = Int (id loc).
Proof.
  unfold catalogIds. rewrite elem_of_list_to_set, list_elem_of_fmap. naive_solver.
Qed.

Lemma initLocations_spec (locs : list LocationData) (i : nat)
    (r : gmap number Z) (w : World) :
  let res := initLocations i locs (r, w) in
  (∀ k, res.1 !! k =
        if decide (k ∈ (λ loc, Int (id loc)) <$> locs) then Some 10 else r !! k)
  ∧ (∀ k, is_Some (layerRefs res.2 !! k) ↔
          is_Some (layerRefs w !! k) ∨ k ∈ (λ loc, Int (id loc)) <$> locs)
  ∧ (∀ k p, layerRefs res.2 !! k = Some p →
            layerRefs w !! k = Some p
            ∨ (circle p = marker p
               ∧ ∃ j loc, locs !! j = Some loc ∧ marker p = (i + j)%nat
                          ∧ k = Int (id loc)))
  ∧ (∀ x, x ∈ clusterLayers res.2 ↔
          x ∈ clusterLayers w ∨ (i ≤ x < i + length locs)%nat)
  ∧ mapRef res.2 = mapRef w ∧ heatmapLayerRef res.2 = heatmapLayerRef w
  ∧ markerClusterGroupRef res.2 = markerClusterGroupRef w
  ∧ mapLayers res.2 = mapLayers w ∧ document res.2 = document w.
Proof.
  revert i r w. induction locs as [|loc locs IH]; intros i r w.
  { cbn. repeat split; try done.
    - by left.
    - intros [?|H]; [done|]. by apply elem_of_nil in H.
    - by left.
    - by left.
    - intros [?|?]; [done | lia]. }
  cbn [initLocations initLocation].
  set (r1 := <[Int (id loc) := 10]> r).
  set (w1 := with_clusterLayers _ _).
  destruct (IH (S i) r1 w1) as (H1 & H2 & H3 & H4 & H5 & H6 & H7 & H8 & H9).
  assert (layerRefs w1 = <[Int (id loc) := mkLayerPair i i]> (layerRefs w)) as Hlr by done.
  assert (clusterLayers w1 = {[ i ]} ∪ clusterLayers w) as Hcl by done.
  cbn zeta. split_and!.
  - intros k. rewrite H1. cbn [fmap list_fmap].
    destruct (decide (k ∈ (λ loc0, Int (id loc0)) <$> locs)) as [Hin|Hin].
    + rewrite decide_True; [done|]. by apply list_elem_of_further.
    + subst r1. destruct (decide (k = Int (id loc))) as [->|Hne].
      * rewrite lookup_insert_eq, decide_True; [done|]. apply list_elem_of_here.
      * rewrite lookup_insert_ne by done. rewrite decide_False; [done|].
        intros [?|?]%elem_of_cons; done.
  - intros k. rewrite H2, Hlr. cbn [fmap list_fmap]. rewrite elem_of_cons.
    destruct (decide (k = Int (id loc))) as [->|Hne].
    + rewrite lookup_insert_eq. naive_solver.
    + rewrite lookup_insert_ne by done. naive_solver.
  - intros k p Hp. apply H3 in Hp as [Hp|(Hc & j & loc' & Hj & Hm & Hk)].
    + rewrite Hlr in Hp. destruct (decide (k = Int (id loc))) as [->|Hne].
      * rewrite lookup_insert_eq in Hp. injection Hp as <-. right.
        split; [done|]. exists 0%nat, loc. cbn. split_and!; [done|lia|done].
      * rewrite lookup_insert_ne in Hp by done. by left.
    + right. split; [done|]. exists (S j), loc'. split_and!; [done|lia|done].
  - intros x. rewrite H4, Hcl. cbn [length]. rewrite elem_of_union, elem_of_singleton.
    split.
    + intros [[->|?]|?]; [right; lia | by left | right; lia].
    + intros [?|?]; [by left; right|].
      destruct (decide (x = i)) as [->|?]; [by left; left | right; lia].
  - by rewrite H5.
  - by rewrite H6.
  - by rewrite H7.
  - by rewrite H8.
  - by rewrite H9.
Qed.

Lemma radiiEffect_empty (w : World) : radiiEffect ∅ w = w.
Proof. unfold radiiEffect, Object_entries. by rewrite map_to_list_empty. Qed.

(** The world the initialization leaves and the map it hands to
    [setRadii]. *)
Lemma initEffect_initial :
  ∃ wi r0,
    initEffect initialWorld = (wi, [SetValue r0])
    ∧ r0 = gset_to_gmap 10 catalogIds
    ∧ mapRef wi = true ∧ heatmapLayerRef wi = true ∧ markerClusterGroupRef wi = true
    ∧ (∀ k p, layerRefs wi !! k = Some p →
              circle p = marker p
              ∧ ∃ loc, LOCATIONS !! marker p = Some loc ∧ k = Int (id loc))
    ∧ dom (layerRefs wi) = catalogIds
    ∧ (∀ i, (i < length LOCATIONS)%nat → i ∈ clusterLayers wi)
    ∧ document wi = ∅.
Proof.
  unfold initEffect. cbn [initialWorld mapRef mapContainerRef negb orb].
  set (w0 := with_refs _ _ _ _ _).
  pose proof (initLocations_spec LOCATIONS 0 ∅ w0) as Hspec. cbn zeta in Hspec.
  destruct (initLocations 0 LOCATIONS (∅, w0)) as [r0 w1] eqn:E. cbn [fst snd] in Hspec.
  destruct Hspec as (H1 & H2 & H3 & H4 & H5 & H6 & H7 & H8 & H9).
  destruct (addLayer_spec MarkerClusterGroup w1) as [(S1 & S2 & S3 & S4 & S5 & S6 & S7 & S8) _].
  eexists _, r0. split; [reflexivity|]. cbn.
  assert (layerRefs w0 = ∅) as Hlr0.
  { subst w0. cbn. unfold addLayer. by destruct (hasLayer _ _). }
  assert (document w0 = ∅) as Hd0.
  { subst w0. cbn. unfold addLayer. by destruct (hasLayer _ _). }
  split_and!.
  - apply map_eq. intros k. rewrite H1, lookup_gset_to_gmap, lookup_empty.
    unfold catalogIds. destruct (decide (k ∈ _ <$> LOCATIONS)) as [Hin|Hin].
    + rewrite option_guard_True; [done|]. by apply elem_of_list_to_set.
    + rewrite option_guard_False; [done|]. by rewrite elem_of_list_to_set.
  - by rewrite S1, H5.
  - by rewrite S2, H6.
  - by rewrite S3, H7.
  - intros k p Hp. rewrite S4 in Hp. apply H3 in Hp as [Hp|(Hc & j & loc & Hj & Hm & Hk)].
    + by rewrite Hlr0 in Hp.
    + split; [done|]. exists loc. by rewrite Hm.
  - apply set_eq. intros k. rewrite S4, elem_of_dom, H2, Hlr0, lookup_empty.
    unfold catalogIds. rewrite elem_of_list_to_set. split; [|by right].
    intros [[? ?]|?]; done.
  - intros i Hi. rewrite S5. apply H4. right. lia.
  - by rewrite S8, H9, Hd0.
Qed.

Lemma mount_eq :
  ∃ wi r0,
    initEffect initialWorld = (wi, [SetValue r0])
    ∧ mount =
      mkState (with_radii r0 initialHooks)
        (radiiEffect r0
           (clusteringEffect true (labelsEffect true (heatmapEffect false wi)))).
Proof.
  destruct initEffect_initial as (wi & r0 & E & _). exists wi, r0. split; [done|].
  unfold mount, commit, effects. rewrite E. cbn.
  by rewrite radiiEffect_empty.
Qed.

Lemma mount_radii : radii (hooks mount) = gset_to_gmap 10 catalogIds.
Proof.
  destruct initEffect_initial as (wi & r0 & E & -> & _).
  destruct mount_eq as (wi' & r0' & E' & ->). rewrite E in E'. by injection E' as <- <-.
Qed.

(** ** The invariant *)

Lemma layerRefs_circle_inj (s : State) (k k' : number) (p p' : LayerPair) :
  Inv s → layerRefs (world s) !! k = Some p → layerRefs (world s) !! k' = Some p' →
  circle p' = circle p → k' = k.
Proof.
  intros Hinv Hp Hp' Hc.
  destruct (inv_layerRefs s Hinv k p Hp) as (E & loc & Hl & ->).
  destruct (inv_layerRefs s Hinv k' p' Hp') as (E' & loc' & Hl' & ->).
  assert (marker p' = marker p) as Hm by congruence.
  rewrite Hm, Hl in Hl'. by injection Hl' as <-.
Qed.

Lemma Inv_mount : Inv mount.
Proof.
  destruct initEffect_initial as (wi & r0 & E & Hr0 & Hm & Hh & Hc & Hlr & Hdom & Hcl & Hdoc).
  destruct mount_eq as (wi' & r0' & E' & ->). rewrite E in E'. injection E' as <- <-.
  destruct (heatmapEffect_spec false wi) as [(A1 & A2 & A3 & A4 & A5 & A6 & A7 & A8) _].
  set (wa := heatmapEffect false wi) in *.
  destruct (labelsEffect_frame true wa) as (B1 & B2 & B3 & B4 & B5 & B6 & B7 & B8).
  set (wb := labelsEffect true wa) in *.
  destruct (clusteringEffect_spec true wb) as [(C1 & C2 & C3 & C4 & C5 & C6 & C7 & C8) Hmode];
    [congruence..|].
  set (wc := clusteringEffect true wb) in *.
  destruct (radiiEffect_frame r0 wc) as (D1 & D2 & D3 & D4 & D5 & D6 & D7).
  destruct (radiiEffect_other r0 wc) as [_ Hkeys].
  assert (layerRefs (radiiEffect r0 wc) = layerRefs wi) as Hl by congruence.
  constructor; cbn [world hooks radii with_radii isClusteringEnabled initialHooks].
  - congruence.
  - congruence.
  - congruence.
  - intros k p. rewrite Hl. apply Hlr.
  - by rewrite Hl.
  - intros i Hi. rewrite D6, C5, B5, A5. by apply Hcl.
  - rewrite Hr0, dom_gset_to_gmap. done.
  - intros k p r Hp Hr. rewrite D4 in Hp.
    apply (radiiEffect_own r0 wc k r p); [done..|].
    intros k' p' Hp' Hcp.
    assert (layerRefs wc = layerRefs wi) as Hlc by congruence. rewrite Hlc in *.
    destruct (Hlr k p Hp) as (Ec & loc & Hloc & ->).
    destruct (Hlr k' p' Hp') as (Ec' & loc' & Hloc' & ->).
    assert (marker p' = marker p) as Hmp by congruence.
    rewrite Hmp, Hloc in Hloc'. by injection Hloc' as <-.
  - rewrite D5, D4. destruct Hmode as [M1 M2]. split; [done|].
    intros k p Hp. apply (M2 k). by rewrite <- C4.
  - intros key Hkey. apply Hkeys in Hkey.
    rewrite C8, B8, A8, Hdoc, lookup_empty in Hkey. by destruct Hkey.
Qed.

Lemma Inv_frame (s : State) (h' : Hooks) (w' : World) :
  Inv s →
  radii h' = radii (hooks s) →
  mapRef w' = mapRef (world s) → heatmapLayerRef w' = heatmapLayerRef (world s) →
  markerClusterGroupRef w' = markerClusterGroupRef (world s) →
  layerRefs w' = layerRefs (world s) → clusterLayers w' = clusterLayers (world s) →
  circleRadius w' = circleRadius (world s) →
  (if isClusteringEnabled h'
   then MarkerClusterGroup ∈ mapLayers w'
        ∧ ∀ k p, layerRefs w' !! k = Some p → Marker (marker p) ∉ mapLayers w'
   else (MarkerClusterGroup ∉ mapLayers w')
        ∧ ∀ k p, layerRefs w' !! k = Some p → Marker (marker p) ∈ mapLayers w') →
  (∀ key, is_Some (document w' !! key) →
          ∃ k, k ∈ catalogIds ∧ (key = slider_id k ∨ key = label_id k)) →
  Inv (mkState h' w').
Proof.
  intros [I1 I2 I3 I4 I5 I6 I7 I8 I9 I10] Hr E1 E2 E3 E4 E5 E6 Hmode Hdoc.
  constructor; cbn [hooks world]; try done; try congruence.
  all: rewrite ?E4, ?E5, ?E6, ?Hr; done.
Qed.

Lemma Inv_radii_change (s : State) (m : gmap number Z) :
  Inv s → catalogIds ⊆ dom m →
  Inv (mkState (with_radii m (hooks s)) (radiiEffect m (world s))).
Proof.
  intros Hinv Hm. pose proof Hinv as [I1 I2 I3 I4 I5 I6 I7 I8 I9 I10].
  destruct (radiiEffect_frame m (world s)) as (D1 & D2 & D3 & D4 & D5 & D6 & D7).
  destruct (radiiEffect_other m (world s)) as [_ Hkeys].
  constructor; cbn [hooks world radii with_radii isClusteringEnabled];
    rewrite ?D1, ?D2, ?D3, ?D4, ?D5, ?D6; try done.
  - intros k p r Hp Hr. apply (radiiEffect_own m (world s) k r p); [done..|].
    intros k' p' Hp' Hc. by eapply layerRefs_circle_inj.
  - intros key Hkey. apply I10. by apply Hkeys.
Qed.

Lemma Inv_layers (s : State) (h' : Hooks) (w' : World) :
  Inv s → radii h' = radii (hooks s) → sameExceptLayers w' (world s) →
  (if isClusteringEnabled h'
   then MarkerClusterGroup ∈ mapLayers w'
        ∧ ∀ k p, layerRefs (world s) !! k = Some p → Marker (marker p) ∉ mapLayers w'
   else (MarkerClusterGroup ∉ mapLayers w')
        ∧ ∀ k p, layerRefs (world s) !! k = Some p → Marker (marker p) ∈ mapLayers w') →
  Inv (mkState h' w').
Proof.
  intros Hinv Hr (S1 & S2 & S3 & S4 & S5 & S6 & S7 & S8) Hmode.
  apply (Inv_frame s); try done.
  - by rewrite S4.
  - rewrite S8. apply (inv_dom s Hinv).
Qed.

Lemma popupContent_keys (loc : LocationData) (key : string) :
  is_Some (popupContent loc !! key) →
  key = slider_id (Int (id loc)) ∨ key = label_id (Int (id loc)).
Proof.
  unfold popupContent. intros H.
  destruct (decide (key = slider_id (Int (id loc)))) as [->|H1]; [by left|].
  destruct (decide (key = label_id (Int (id loc)))) as [->|H2]; [by right|].
  rewrite !lookup_insert_ne, lookup_empty in H by done. by destruct H.
Qed.

(** Every event keeps the invariant. *)
Lemma Inv_handle (e : Event) (s : State) : Inv s → Inv (handle e s).
Proof.
  intros Hinv. pose proof Hinv as [I1 I2 I3 I4 I5 I6 I7 I8 I9 I10].
  destruct e as [q|k r|loc v|b|b|b|b|v|loc|].
  - rewrite handle_SetSearchTerm. apply (Inv_frame s); done.
  - cbn [handle]. rewrite setRadii_eq. apply Inv_radii_change; [done|].
    cbn. rewrite dom_insert_L. set_solver.
  - cbn [handle]. destruct (document (world s) !! slider_id (Int (id loc))) eqn:Hs; [|done].
    destruct (I10 (slider_id (Int (id loc)))) as (k & Hk & [E|E]); [by eauto|..].
    2:{ by apply slider_id_label_id in E. }
    apply slider_id_inj in E. subst k.
    rewrite setRadii_eq. cbn [hooks world].
    apply (Inv_radii_change (mkState (hooks s) _)).
    + apply (Inv_frame s); try done. cbn [document with_document].
      intros key Hkey.
      destruct (decide (key = label_id (Int (id loc)))) as [->|H1]; [by eauto|].
      destruct (decide (key = slider_id (Int (id loc)))) as [->|H2]; [by eauto|].
      rewrite !lookup_insert_ne in Hkey by done. by apply I10.
    + cbn. rewrite dom_insert_L. set_solver.
  - rewrite handle_SetIsClusteringEnabled.
    destruct (Bool.eqb (isClusteringEnabled (hooks s)) b) eqn:E.
    + apply eqb_true_eq in E. subst b. rewrite with_isClusteringEnabled_same.
      by destruct s.
    + destruct (clusteringEffect_spec b (world s) I1 I3) as [Hs Hm].
      apply (Inv_layers s); done.
  - rewrite handle_SetShowHeatmap.
    destruct (Bool.eqb (showHeatmap (hooks s)) b) eqn:E.
    + apply (Inv_frame s); done.
    + destruct (heatmapEffect_spec b (world s)) as [Hs Hm].
      apply (Inv_layers s); [done..|]. cbn [isClusteringEnabled with_showHeatmap].
      destruct (isClusteringEnabled (hooks s)).
      * destruct I9 as [M1 M2]. split; [by apply Hm|].
        intros k p Hp. rewrite Hm by done. by apply (M2 k).
      * destruct I9 as [M1 M2]. split; [by rewrite Hm|].
        intros k p Hp. rewrite Hm by done. by apply (M2 k).
  - rewrite handle_SetShowLabels.
    destruct (Bool.eqb (showLabels (hooks s)) b) eqn:E.
    + apply (Inv_frame s); done.
    + destruct (labelsEffect_frame b (world s)) as (B1 & B2 & B3 & B4 & B5 & B6 & B7 & B8).
      apply (Inv_frame s); try done.
      * cbn [isClusteringEnabled with_showLabels]. by rewrite B7, B4.
      * by rewrite B8.
  - rewrite handle_SetIsSynced.
    destruct (Bool.eqb (isSynced (hooks s)) b); [done|]. destruct b.
    + apply (Inv_radii_change (mkState (with_isSynced true (hooks s)) (world s))).
      * apply (Inv_frame s); done.
      * cbn. rewrite newRadii_eq, dom_fmap_L. done.
    + apply (Inv_frame s); done.
  - rewrite handle_SetUniformRadius.
    destruct (uniformRadius (hooks s) =? v); [done|].
    destruct (isSynced (hooks s)).
    + apply (Inv_radii_change (mkState (with_uniformRadius v (hooks s)) (world s))).
      * apply (Inv_frame s); done.
      * cbn. rewrite newRadii_eq, dom_fmap_L. done.
    + apply (Inv_frame s); done.
  - cbn [handle]. unfold handleLocationSelect. rewrite I1.
    destruct (layerRefs (world s) !! Int (id loc)) as [refs|] eqn:Hrefs;
      [|by destruct s].
    assert (Int (id loc) ∈ catalogIds) as Hcat.
    { rewrite <- I5. apply elem_of_dom. eauto. }
    destruct (isClusteringEnabled (hooks s) && markerClusterGroupRef (world s));
      (apply (Inv_frame s); try done; cbn [document openPopup with_document];
       intros key Hkey%popupContent_keys; eauto).
  - cbn [handle]. apply (Inv_frame s); try done.
    cbn. intros key Hkey. rewrite lookup_empty in Hkey. by destruct Hkey.
Qed.

Lemma Inv_run (es : list Event) (s : State) :
  Inv s → Inv (fold_left (λ s e, handle e s) es s).
Proof. intros Hs. apply fold_left_invariant; [done|]. intros. by apply Inv_handle. Qed.

Lemma Inv_session (es : list Event) : Inv (session es).
Proof. apply Inv_run, Inv_mount. Qed.

(** ** The radius store *)

(** C9.  When the catalog loads, that is once the component is mounted,
    RadiusMap holds the value 10 at every id of the catalog and nothing
    else: one entry per catalog location. *)
Theorem mount_initial_radii :
  radii (hooks mount) = gset_to_gmap 10 catalogIds
  ∧ (∀ loc, loc ∈ LOCATIONS → radii (hooks mount) !! Int (id loc) = Some 10)
  ∧ (∀ k r, radii (hooks mount) !! k = Some r →
            r = 10 ∧ ∃ loc, loc ∈ LOCATIONS ∧ k = Int (id loc))
  ∧ (NoDup (id <$> LOCATIONS) → size (radii (hooks mount)) = length LOCATIONS).
Proof.
  rewrite mount_radii. split_and!.
  - done.
  - intros loc Hloc. apply lookup_gset_to_gmap_Some. split; [|done].
    apply elem_of_catalogIds. eauto.
  - intros k r [Hk <-]%lookup_gset_to_gmap_Some. split; [done|].
    by apply elem_of_catalogIds.
  - intros Hnd. rewrite <- size_dom, dom_gset_to_gmap. unfold catalogIds.
    rewrite size_list_to_set, length_fmap; [done|].
    rewrite (list_fmap_compose id Int). apply NoDup_fmap_2; [|done].
    by intros ?? [=].
Qed.

(** The value of [radii] after an event. *)
Lemma radii_handle (e : Event) (s : State) :
  radii (hooks (handle e s)) =
  let m := radii (hooks s) in
  match e with
  | WindowUpdateRadius k r => <[k := r]> m
  | PopupInput loc v =>
      match document (world s) !! slider_id (Int (id loc)) with
      | Some _ => <[Int (id loc) := v]> m
      | None => m
      end
  | SetIsSynced b =>
      if negb (Bool.eqb (isSynced (hooks s)) b) && b
      then (λ _, uniformRadius (hooks s)) <$> m else m
  | SetUniformRadius v =>
      if negb (uniformRadius (hooks s) =? v) && isSynced (hooks s)
      then (λ _, v) <$> m else m
  | _ => m
  end.
Proof.
  destruct e as [q|k r|loc v|b|b|b|b|v|loc|]; cbn zeta.
  - by rewrite handle_SetSearchTerm.
  - cbn [handle]. by rewrite setRadii_eq.
  - cbn [handle]. destruct (document (world s) !! _); [|done]. by rewrite setRadii_eq.
  - by rewrite handle_SetIsClusteringEnabled.
  - by rewrite handle_SetShowHeatmap.
  - by rewrite handle_SetShowLabels.
  - rewrite handle_SetIsSynced. destruct (Bool.eqb _ b); [done|].
    destruct b; cbn; [|done]. by rewrite newRadii_eq.
  - rewrite handle_SetUniformRadius. destruct (_ =? v); [done|].
    destruct (isSynced (hooks s)); cbn; [|done]. by rewrite newRadii_eq.
  - done.
  - done.
Qed.

(** The hooks other than [radii] after an event. *)
Lemma hooks_handle (e : Event) (s : State) :
  let h := hooks s in
  let h' := hooks (handle e s) in
  searchTerm h' = match e with SetSearchTerm q => q | _ => searchTerm h end
  ∧ isSynced h' = match e with SetIsSynced b => b | _ => isSynced h end
  ∧ uniformRadius h' = match e with SetUniformRadius v => v | _ => uniformRadius h end
  ∧ showLabels h' = match e with SetShowLabels b => b | _ => showLabels h end
  ∧ showHeatmap h' = match e with SetShowHeatmap b => b | _ => showHeatmap h end
  ∧ isClusteringEnabled h' =
    match e with SetIsClusteringEnabled b => b | _ => isClusteringEnabled h end.
Proof.
  destruct e as [q|k r|loc v|b|b|b|b|v|loc|]; cbn zeta.
  - by rewrite handle_SetSearchTerm.
  - cbn [handle]. by rewrite setRadii_eq.
  - cbn [handle]. destruct (document (world s) !! _); [|done]. by rewrite setRadii_eq.
  - by rewrite handle_SetIsClusteringEnabled.
  - by rewrite handle_SetShowHeatmap.
  - by rewrite handle_SetShowLabels.
  - rewrite handle_SetIsSynced. destruct (Bool.eqb _ b) eqn:E.
    + apply eqb_true_eq in E. by subst b.
    + by destruct b.
  - rewrite handle_SetUniformRadius. destruct (Z.eqb_spec (uniformRadius (hooks s)) v).
    + by subst v.
    + destruct (isSynced (hooks s)) eqn:Es; cbn; by rewrite ?Es.
  - done.
  - done.
Qed.

Lemma radii_dom_handle (e : Event) (s : State) :
  Inv s → forCatalogId e →
  dom (radii (hooks s)) = catalogIds → dom (radii (hooks (handle e s))) = catalogIds.
Proof.
  intros Hinv He Hdom. rewrite radii_handle. cbn zeta.
  destruct e as [q|k r|loc v|b|b|b|b|v|loc|]; try done.
  - cbn in He. rewrite dom_insert_L, Hdom.
    by apply subseteq_union_1_L, singleton_subseteq_l.
  - destruct (document (world s) !! slider_id (Int (id loc))) eqn:Hs; [|done].
    destruct (inv_dom s Hinv (slider_id (Int (id loc)))) as (k & Hk & [E|E]);
      [by eauto|..].
    + apply slider_id_inj in E. subst k. rewrite dom_insert_L, Hdom.
      by apply subseteq_union_1_L, singleton_subseteq_l.
    + by apply slider_id_label_id in E.
  - destruct (_ && _); [|done]. by rewrite dom_fmap_L.
  - destruct (_ && _); [|done]. by rewrite dom_fmap_L.
Qed.

Lemma radii_dom_run (es : list Event) (s : State) :
  Inv s → Forall forCatalogId es → dom (radii (hooks s)) = catalogIds →
  dom (radii (hooks (fold_left (λ s e, handle e s) es s))) = catalogIds.
Proof.
  revert s. induction es as [|e es IH]; intros s Hinv Hall Hdom; [done|].
  apply Forall_cons in Hall as [He Hall]. cbn [fold_left].
  apply IH; [by apply Inv_handle | done | by apply radii_dom_handle].
Qed.

(** C2, amended.  At every point of a session no id of the catalog is
    missing from the keys of RadiusMap; and the keys are exactly the ids of
    the catalog as long as every call of [window.updateRadius] was made for
    an id of the catalog, as the popup sliders make them. *)
Theorem radii_keys_catalog (es : list Event) :
  catalogIds ⊆ dom (radii (hooks (session es)))
  ∧ (Forall forCatalogId es → dom (radii (hooks (session es))) = catalogIds).
Proof.
  split; [apply (inv_radii _ (Inv_session es))|].
  intros Hall. apply radii_dom_run; [apply Inv_mount | done |].
  by rewrite mount_radii, dom_gset_to_gmap.
Qed.

Lemma fold_left_invariant_in {A B} (P : A → Prop) (f : A → B → A) (l : list B) (a : A) :
  P a → (∀ a b, b ∈ l → P a → P (f a b)) → P (fold_left f l a).
Proof.
  revert a. induction l as [|b l IH]; intros a Ha Hf; [done|].
  cbn. apply IH.
  - apply Hf; [apply list_elem_of_here | done].
  - intros a' b' Hb'. apply Hf. by apply list_elem_of_further.
Qed.



(** ** The map adapter *)

(** With unique ids, the pair stored for a location of the catalog is the
    marker and the circle made for it. *)
Lemma layerRefs_of_catalog (s : State) (i : nat) (X : LocationData) :
  Inv s → NoDup (id <$> LOCATIONS) → LOCATIONS !! i = Some X →
  layerRefs (world s) !! Int (id X) = Some (mkLayerPair i i).
Proof.
  intros Hinv Hnd HX.
  assert (Int (id X) ∈ dom (layerRefs (world s))) as [p Hp]%elem_of_dom.
  { rewrite (inv_layerRefs_dom s Hinv). apply elem_of_catalogIds.
    exists X. split; [|done]. by eapply list_elem_of_lookup_2. }
  destruct (inv_layerRefs s Hinv _ p Hp) as (Hc & loc & Hloc & [= Hid]).
  assert (marker p = i) as Hm.
  { eapply (NoDup_lookup (id <$> LOCATIONS)); [done|..].
    - by rewrite list_lookup_fmap, Hloc.
    - rewrite list_lookup_fmap, HX. cbn. by rewrite Hid. }
  rewrite Hp. f_equal. destruct p as [pm pc]. cbn in *. congruence.
Qed.



(** C7.  Setting the heatmap, clustering or labels flag to the value it has
    leaves the whole state as it is, the log of Leaflet calls included: no
    layer is added or removed and no icon is rebuilt.  And the heatmap
    effect itself, run for the state the heat layer is already in, changes
    nothing and issues no call: whenever it runs it adds the heat layer
    only if it is off the map and removes it only if it is on it. *)
Theorem toggles_idempotent (s : State) :
  handle (SetShowHeatmap (showHeatmap (hooks s))) s = s
  ∧ handle (SetIsClusteringEnabled (isClusteringEnabled (hooks s))) s = s
  ∧ handle (SetShowLabels (showLabels (hooks s))) s = s
  ∧ (∀ w, heatmapEffect (hasLayer HeatLayer w) w = w)
  ∧ ∀ b w,
      calls (heatmapEffect b w) =
      calls w ++
      if negb (mapRef w) || negb (heatmapLayerRef w) then []
      else if b then (if hasLayer HeatLayer w then [] else [AddLayer HeatLayer])
      else (if hasLayer HeatLayer w then [RemoveLayer HeatLayer] else []).
Proof.
  split_and!.
  - rewrite handle_SetShowHeatmap, Bool.eqb_reflx, with_showHeatmap_same. by destruct s.
  - rewrite handle_SetIsClusteringEnabled, Bool.eqb_reflx, with_isClusteringEnabled_same.
    by destruct s.
  - rewrite handle_SetShowLabels, Bool.eqb_reflx, with_showLabels_same. by destruct s.
  - intros w. unfold heatmapEffect.
    destruct (negb (mapRef w) || negb (heatmapLayerRef w)); [done|].
    by destruct (hasLayer HeatLayer w).
  - intros b w. unfold heatmapEffect, addLayer, removeLayer.
    destruct (negb (mapRef w) || negb (heatmapLayerRef w)); [by rewrite app_nil_r|].
    destruct b, (hasLayer HeatLayer w) eqn:E; cbn; rewrite ?E; cbn;
      by rewrite ?app_nil_r.
Qed.

(** C8.  The events that set a visualization flag leave RadiusMap as it
    is, and every other event leaves the three flags as they are: so no
    change of a flag changes RadiusMap, and no change of RadiusMap changes
    a flag. *)
Theorem flags_and_radii_independent (e : Event) (s : State) :
  match e with
  | SetShowLabels _ | SetShowHeatmap _ | SetIsClusteringEnabled _ =>
      radii (hooks (handle e s)) = radii (hooks s)
  | _ =>
      flags (hooks (handle e s)) = flags (hooks s)
  end
  ∧ (flags (hooks (handle e s)) ≠ flags (hooks s) →
     radii (hooks (handle e s)) = radii (hooks s))
  ∧ (radii (hooks (handle e s)) ≠ radii (hooks s) →
     flags (hooks (handle e s)) = flags (hooks s)).
Proof.
  pose proof (radii_handle e s) as Hr. cbn zeta in Hr.
  destruct (hooks_handle e s) as (_ & _ & _ & H1 & H2 & H3).
  unfold flags.
  destruct e as [q|k r|loc v|b|b|b|b|v|loc|]; rewrite ?H1, ?H2, ?H3;
    split_and!; try done.
Qed.

(** ** The search filter *)


(** ** More on the layers of the map *)

Lemma addLayer_elem (l : Layer) (w : World) (x : Layer) :
  x ∈ mapLayers (addLayer l w) ↔
  x ∈ mapLayers w ∨ ((l ∉ mapLayers w) ∧ (x = l ∨ ∃ i, l = Marker i ∧ x = Circle i)).
Proof.
  unfold addLayer. destruct (hasLayer l w) eqn:El.
  - apply hasLayer_true in El. cbn. naive_solver.
  - apply hasLayer_false in El.
    destruct l; cbn; try (rewrite elem_of_union, elem_of_singleton; naive_solver).
    unfold onMarkerAdd. destruct (hasLayer (Circle i) _) eqn:Ec; cbn.
    + apply hasLayer_true in Ec. cbn in Ec.
      rewrite elem_of_union, elem_of_singleton in Ec.
      rewrite elem_of_union, elem_of_singleton.
      split; [naive_solver|]. intros [?|[_ [->|(j & [= <-] & ->)]]]; naive_solver.
    + rewrite !elem_of_union, !elem_of_singleton. naive_solver.
Qed.

Lemma removeLayer_elem (l : Layer) (w : World) (x : Layer) :
  x ∈ mapLayers (removeLayer l w) ↔
  x ∈ mapLayers w
  ∧ ¬ (l ∈ mapLayers w ∧ (x = l ∨ ∃ i, l = Marker i ∧ x = Circle i)).
Proof.
  unfold removeLayer. destruct (hasLayer l w) eqn:El; cbn [negb].
  - apply hasLayer_true in El.
    destruct l; cbn;
      try (rewrite elem_of_difference, elem_of_singleton; naive_solver).
    unfold onMarkerRemove. destruct (hasLayer (Circle i) _) eqn:Ec; cbn.
    + rewrite !elem_of_difference, !elem_of_singleton. naive_solver.
    + apply hasLayer_false in Ec. cbn in Ec.
      rewrite elem_of_difference, elem_of_singleton in Ec.
      rewrite elem_of_difference, elem_of_singleton.
      split; [|naive_solver]. intros [Hx Hne]. split; [done|].
      intros [_ [->|(j & [= <-] & ->)]]; [done|]. apply Ec. split; [done|]. done.
  - apply hasLayer_false in El. cbn. naive_solver.
Qed.

(** The layers the clustering effect adds and removes. *)
Lemma layersInv_addLayer (sh : bool) (w : World) (l : Layer) :
  layersInv sh w →
  l = MarkerClusterGroup ∨ (∃ k p, layerRefs w !! k = Some p ∧ l = Marker (marker p)) →
  layersInv sh (addLayer l w).
Proof.
  intros (T & H & C & M) Hl.
  destruct (addLayer_spec l w) as [(_ & _ & _ & Hlr & _) _].
  unfold layersInv. rewrite Hlr. split_and!.
  - apply addLayer_elem. by left.
  - rewrite addLayer_elem, <- H. destruct Hl as [E|(k & p & _ & E)]; subst l; naive_solver.
  - intros i. rewrite !addLayer_elem, C.
    destruct Hl as [E|(k & p & _ & E)]; subst l; naive_solver.
  - intros i. rewrite addLayer_elem.
    destruct Hl as [E|(k & p & Hp & E)]; subst l; [naive_solver|].
    intros [?|[_ [E|(j & _ & E)]]]; [by apply M| |done].
    injection E as E. exists k, p. by subst i.
Qed.

Lemma layersInv_removeLayer (sh : bool) (w : World) (l : Layer) :
  layersInv sh w →
  l = MarkerClusterGroup ∨ (∃ i, l = Marker i) →
  layersInv sh (removeLayer l w).
Proof.
  intros (T & H & C & M) Hl.
  destruct (removeLayer_spec l w) as [(_ & _ & _ & Hlr & _) _].
  unfold layersInv. rewrite Hlr. split_and!.
  - apply removeLayer_elem. destruct Hl as [E|(j & E)]; subst l; naive_solver.
  - rewrite removeLayer_elem, <- H. destruct Hl as [E|(j & E)]; subst l; naive_solver.
  - intros i. rewrite !removeLayer_elem, C.
    destruct Hl as [E|(j & E)]; subst l; naive_solver.
  - intros i. rewrite removeLayer_elem. intros [Hm _]. by apply M.
Qed.

Lemma layersInv_clusteringEffect (sh b : bool) (w : World) :
  layersInv sh w → layersInv sh (clusteringEffect b w).
Proof.
  intros Hw. unfold clusteringEffect.
  destruct (negb (mapRef w) || negb (markerClusterGroupRef w)); [done|].
  destruct b.
  - set (w1 := fold_left _ _ w).
    assert (layersInv sh w1) as H1.
    { subst w1.
      apply (fold_left_invariant (layersInv sh)); [done|]. intros w' refs Hw'.
      destruct (hasLayer _ w'); [|done]. apply layersInv_removeLayer; eauto. }
    destruct (negb (hasLayer MarkerClusterGroup w1)); [|done].
    apply layersInv_addLayer; auto.
  - set (w1 := if hasLayer MarkerClusterGroup w then _ else w).
    assert (layersInv sh w1 ∧ layerRefs w1 = layerRefs w) as [H1 Hl1].
    { subst w1. destruct (hasLayer MarkerClusterGroup w); [|done]. split.
      - apply layersInv_removeLayer; auto.
      - by destruct (removeLayer_spec MarkerClusterGroup w) as [(_ & _ & _ & ? & _) _]. }
    cut (layersInv sh (fold_left
           (λ w0 refs, if negb (hasLayer (Marker (marker refs)) w0)
                       then addLayer (Marker (marker refs)) w0 else w0)
           (Object_values (layerRefs w1)) w1)
         ∧ layerRefs (fold_left
           (λ w0 refs, if negb (hasLayer (Marker (marker refs)) w0)
                       then addLayer (Marker (marker refs)) w0 else w0)
           (Object_values (layerRefs w1)) w1) = layerRefs w1); [by intros [? _]|].
    apply (fold_left_invariant_in
             (λ w', layersInv sh w' ∧ layerRefs w' = layerRefs w1)); [done|].
    intros w' refs Hin [Hw' Hl']. apply elem_of_Object_values in Hin as [k Hk].
    destruct (negb (hasLayer _ w')); [|done]. split.
    + apply layersInv_addLayer; [done|]. right. exists k, refs. by rewrite Hl'.
    + destruct (addLayer_spec (Marker (marker refs)) w') as [(_ & _ & _ & ? & _) _].
      congruence.
Qed.

Lemma layersInv_heatmapEffect (sh b : bool) (w : World) :
  mapRef w = true → heatmapLayerRef w = true →
  layersInv sh w → layersInv b (heatmapEffect b w).
Proof.
  intros Hm Hh (T & H & C & M). unfold heatmapEffect. rewrite Hm, Hh. cbn [negb orb].
  destruct b.
  - destruct (hasLayer HeatLayer w) eqn:E; cbn [negb].
    + apply hasLayer_true in E. by split_and!.
    + apply hasLayer_false in E.
      destruct (addLayer_spec HeatLayer w) as [(_ & _ & _ & Hlr & _) _].
      unfold layersInv. rewrite Hlr. split_and!.
      * apply addLayer_elem. by left.
      * split; [done|]. intros _. apply addLayer_elem. right. split; [done|]. by left.
      * intros i. rewrite !addLayer_elem, C. naive_solver.
      * intros i. rewrite addLayer_elem. intros [?|[_ [?|(? & ? & _)]]]; [by apply M|done..].
  - destruct (hasLayer HeatLayer w) eqn:E.
    + apply hasLayer_true in E.
      destruct (removeLayer_spec HeatLayer w) as [(_ & _ & _ & Hlr & _) _].
      unfold layersInv. rewrite Hlr. split_and!.
      * apply removeLayer_elem. split; [done|]. naive_solver.
      * split; [|done]. intros [_ Hn]%removeLayer_elem. exfalso. apply Hn. auto.
      * intros i. rewrite !removeLayer_elem, C. naive_solver.
      * intros i. rewrite removeLayer_elem. intros [? _]. by apply M.
    + apply hasLayer_false in E. split_and!; try done; by split.
Qed.

Lemma layersInv_same (sh : bool) (w w' : World) :
  mapLayers w' = mapLayers w → layerRefs w' = layerRefs w →
  layersInv sh w → layersInv sh w'.
Proof. unfold layersInv. by intros -> ->. Qed.

Lemma initEffect_layers (wi : World) (q : list (SetStateAction (gmap number Z))) :
  initEffect initialWorld = (wi, q) →
  ∀ x, x ∈ mapLayers wi ↔ x = TileLayer ∨ x = MarkerClusterGroup.
Proof.
  unfold initEffect. cbn [initialWorld mapRef mapContainerRef negb orb].
  set (w0 := with_refs true true true _ _).
  pose proof (initLocations_spec LOCATIONS 0 ∅ w0) as Hspec. cbn zeta in Hspec.
  destruct (initLocations 0 LOCATIONS (∅, w0)) as [r0 w1] eqn:E. cbn [fst snd] in Hspec.
  destruct Hspec as (_ & _ & _ & _ & _ & _ & _ & H8 & _).
  intros [= <- _] x. cbn. rewrite addLayer_elem, H8. subst w0. cbn.
  rewrite addLayer_elem. cbn. rewrite elem_of_empty.
  split; [naive_solver|]. intros [->| ->].
  - left. right. split; [apply not_elem_of_empty|]. by left.
  - destruct (decide (MarkerClusterGroup ∈ mapLayers
        (addLayer TileLayer (with_refs true false false [] (log (SetView 6)
           (mkWorld false true false false ∅ ∅ ∅ ∅ ∅ [] ∅ [])))))) as [Hin|Hout].
    + left. apply addLayer_elem in Hin. cbn in Hin. rewrite elem_of_empty in Hin.
      naive_solver.
    + right. split; [|by left]. intros Hin. apply Hout.
      apply addLayer_elem. cbn. rewrite elem_of_empty. naive_solver.
Qed.

Lemma clusteringEffect_frame (b : bool) (w : World) :
  sameExceptLayers (clusteringEffect b w) w.
Proof.
  destruct (mapRef w) eqn:Hm, (markerClusterGroupRef w) eqn:Hc;
    try (unfold clusteringEffect; rewrite Hm, Hc; apply sameExceptLayers_refl).
  by destruct (clusteringEffect_spec b w Hm Hc).
Qed.

Lemma handleLocationSelect_frame (h : Hooks) (loc : LocationData) (w : World) :
  let w' := handleLocationSelect h loc w in
  layerRefs w' = layerRefs w ∧ mapLayers w' = mapLayers w
  ∧ markerIcon w' = markerIcon w ∧ circleRadius w' = circleRadius w
  ∧ clusterLayers w' = clusterLayers w.
Proof.
  unfold handleLocationSelect. destruct (mapRef w); [|done].
  destruct (layerRefs w !! Int (id loc)); [|done].
  by destruct (isClusteringEnabled h && markerClusterGroupRef w).
Qed.

(** What no event changes: the pairs of [layerRefs]; and the icons change
    with [showLabels] only. *)
Lemma handle_frame (e : Event) (s : State) :
  layerRefs (world (handle e s)) = layerRefs (world s)
  ∧ match e with
    | SetShowLabels _ => True
    | _ => markerIcon (world (handle e s)) = markerIcon (world s)
    end
  ∧ match e with
    | SetShowHeatmap _ | SetIsClusteringEnabled _ => True
    | _ => mapLayers (world (handle e s)) = mapLayers (world s)
    end.
Proof.
  destruct e as [q|k r|loc v|b|b|b|b|v|loc|].
  - by rewrite handle_SetSearchTerm.
  - cbn [handle]. rewrite setRadii_eq. cbn [world].
    by destruct (radiiEffect_frame (applyAction (radii (hooks s)) (updateRadius k r)) (world s))
      as (_ & _ & _ & ? & ? & _ & ?).
  - cbn [handle]. destruct (document (world s) !! _); [|done].
    rewrite setRadii_eq. cbn [world hooks].
    set (m := applyAction _ _). set (w := with_document _ _).
    by destruct (radiiEffect_frame m w) as (_ & _ & _ & ? & ? & _ & ?).
  - rewrite handle_SetIsClusteringEnabled. cbn [world].
    destruct (Bool.eqb _ b); [done|].
    by destruct (clusteringEffect_frame b (world s)) as (_ & _ & _ & ? & _ & _ & ? & _).
  - rewrite handle_SetShowHeatmap. cbn [world].
    destruct (Bool.eqb _ b); [done|].
    by destruct (heatmapEffect_spec b (world s)) as [(_ & _ & _ & ? & _ & _ & ? & _) _].
  - rewrite handle_SetShowLabels. cbn [world].
    destruct (Bool.eqb _ b); [done|].
    by destruct (labelsEffect_frame b (world s)) as (_ & _ & _ & ? & _ & _ & ? & _).
  - rewrite handle_SetIsSynced. destruct (Bool.eqb _ b); [done|]. destruct b; [|done].
    cbn [world]. set (m := newRadii _ _).
    by destruct (radiiEffect_frame m (world s)) as (_ & _ & _ & ? & ? & _ & ?).
  - rewrite handle_SetUniformRadius. destruct (_ =? v); [done|].
    destruct (isSynced (hooks s)); [|done].
    cbn [world]. set (m := newRadii _ _).
    by destruct (radiiEffect_frame m (world s)) as (_ & _ & _ & ? & ? & _ & ?).
  - cbn [handle world].
    by destruct (handleLocationSelect_frame (hooks s) loc (world s)) as (? & ? & ? & _).
  - done.
Qed.

Lemma layersInv_mount : layersInv (showHeatmap (hooks mount)) (world mount).
Proof.
  destruct initEffect_initial as (wi & r0 & E & _ & Hm & Hh & _).
  destruct mount_eq as (wi' & r0' & E' & ->). rewrite E in E'. injection E' as <- <-.
  pose proof (initEffect_layers wi _ E) as Hl. cbn [hooks world showHeatmap with_radii initialHooks].
  assert (layersInv false wi) as H0.
  { split_and!.
    - apply Hl. by left.
    - split; [|done]. intros [?|?]%Hl; done.
    - intros i. split; intros [?|?]%Hl; done.
    - intros i [?|?]%Hl; done. }
  apply (layersInv_heatmapEffect false false wi Hm Hh) in H0.
  set (wa := heatmapEffect false wi) in *.
  destruct (labelsEffect_frame true wa) as (_ & _ & _ & B4 & _ & _ & B7 & _).
  apply (layersInv_same _ _ _ B7 B4) in H0.
  apply (layersInv_clusteringEffect false true) in H0.
  set (wc := clusteringEffect true _) in *.
  destruct (radiiEffect_frame r0 wc) as (_ & _ & _ & D4 & D5 & _).
  by apply (layersInv_same _ _ _ D5 D4).
Qed.

Lemma layersInv_handle (e : Event) (s : State) :
  Inv s → layersInv (showHeatmap (hooks s)) (world s) →
  layersInv (showHeatmap (hooks (handle e s))) (world (handle e s)).
Proof.
  intros Hinv Hl.
  destruct (hooks_handle e s) as (_ & _ & _ & _ & Hsh & _). cbn zeta in Hsh.
  destruct (handle_frame e s) as (Hlr & _ & Hml). rewrite Hsh.
  destruct e as [q|k r|loc v|b|b|b|b|v|loc|];
    try (by apply (layersInv_same _ (world s))).
  - rewrite handle_SetIsClusteringEnabled. cbn [world].
    destruct (Bool.eqb _ b); [done|]. by apply layersInv_clusteringEffect.
  - rewrite handle_SetShowHeatmap. cbn [world].
    destruct (Bool.eqb _ b) eqn:E.
    + apply eqb_true_eq in E. by subst b.
    + apply (layersInv_heatmapEffect (showHeatmap (hooks s))); [apply Hinv..|done].
Qed.

Lemma layersInv_session (es : list Event) :
  layersInv (showHeatmap (hooks (session es))) (world (session es)).
Proof.
  unfold session.
  cut (Inv (fold_left (λ s e, handle e s) es mount)
       ∧ layersInv (showHeatmap (hooks (fold_left (λ s e, handle e s) es mount)))
           (world (fold_left (λ s e, handle e s) es mount))); [by intros [_ ?]|].
  apply (fold_left_invariant
           (λ s, Inv s ∧ layersInv (showHeatmap (hooks s)) (world s))).
  - split; [apply Inv_mount | apply layersInv_mount].
  - intros s e [Hi Hl]. split; [by apply Inv_handle | by apply layersInv_handle].
Qed.

Lemma layerRefs_session (es : list Event) :
  layerRefs (world (session es)) = layerRefs (world mount).
Proof.
  unfold session. apply (fold_left_invariant (λ s, layerRefs (world s) = layerRefs (world mount)));
    [done|].
  intros s e Hs. destruct (handle_frame e s) as (Hlr & _). congruence.
Qed.

(** The layers on the map, read off the two flags. *)
Lemma mapLayers_session (es : list Event) (x : Layer) :
  let s := session es in
  x ∈ mapLayers (world s) ↔
  match x with
  | TileLayer => True
  | HeatLayer => showHeatmap (hooks s) = true
  | MarkerClusterGroup => isClusteringEnabled (hooks s) = true
  | Marker i | Circle i =>
      isClusteringEnabled (hooks s) = false
      ∧ ∃ k p, layerRefs (world mount) !! k = Some p ∧ marker p = i
  end.
Proof.
  intros s. pose proof (Inv_session es) as Hinv. fold s in Hinv.
  destruct (layersInv_session es) as (T & H & C & M). fold s in T, H, C, M.
  pose proof (inv_mode s Hinv) as Hmode.
  pose proof (layerRefs_session es) as Hlr. fold s in Hlr. rewrite <- Hlr.
  assert (∀ i, Marker i ∈ mapLayers (world s) ↔
               isClusteringEnabled (hooks s) = false
               ∧ ∃ k p, layerRefs (world s) !! k = Some p ∧ marker p = i) as HM.
  { intros i. split.
    - intros Hi. destruct (M i Hi) as (k & p & Hp & <-).
      destruct (isClusteringEnabled (hooks s)); [|by eauto].
      destruct Hmode as [_ Hno]. by destruct (Hno k p Hp).
    - intros [E (k & p & Hp & <-)]. rewrite E in Hmode. destruct Hmode as [_ Hall].
      by apply (Hall k). }
  destruct x as [| | |i|i]; [done|done| |apply HM|by rewrite C].
  destruct (isClusteringEnabled (hooks s)); destruct Hmode as [Hc _]; [done|].
  split; [done|]. intros ?; done.
Qed.

(** ** Properties of the code beyond the claims *)

(** X1.  At every point of a session the heat layer is on the map exactly
    when [showHeatmap] holds, and the tile layer is on the map. *)
Theorem heat_layer_follows_flag (es : list Event) :
  let s := session es in
  (HeatLayer ∈ mapLayers (world s) ↔ showHeatmap (hooks s) = true)
  ∧ TileLayer ∈ mapLayers (world s).
Proof.
  intros s. destruct (layersInv_session es) as (T & H & _). by split.
Qed.



(** X4.  The pairs of [layerRefs] are made once, at the mount, one for
    every id of the catalog, and no event replaces them; with unique ids
    the pair of a location holds the marker and the circle made for it. *)
Theorem layerRefs_fixed (es : list Event) :
  layerRefs (world (session es)) = layerRefs (world mount)
  ∧ dom (layerRefs (world (session es))) = catalogIds
  ∧ (NoDup (id <$> LOCATIONS) →
     ∀ i X, LOCATIONS !! i = Some X →
            layerRefs (world (session es)) !! Int (id X) = Some (mkLayerPair i i)).
Proof.
  split_and!.
  - apply layerRefs_session.
  - apply (inv_layerRefs_dom _ (Inv_session es)).
  - intros Hnd i X HX. by apply layerRefs_of_catalog; [apply Inv_session|..].
Qed.

(** The labels effect on a world whose pairs are those of the catalog. *)
Lemma labels_fold (b : bool) (locs : list LocationData) (w : World) :
  NoDup (id <$> LOCATIONS) →
  (∀ j X, LOCATIONS !! j = Some X →
          layerRefs w !! Int (id X) = Some (mkLayerPair j j)) →
  (∀ X, X ∈ locs → X ∈ LOCATIONS) →
  let w' :=
    fold_left
      (λ w loc,
         match layerRefs w !! Int (id loc) with
         | Some refs => marker_setIcon (marker refs) (createMarkerIcon loc b) w
         | None => w
         end) locs w in
  ∀ j X, LOCATIONS !! j = Some X →
         X ∈ locs ∨ markerIcon w !! j = Some (createMarkerIcon X b) →
         markerIcon w' !! j = Some (createMarkerIcon X b).
Proof.
  intros Hnd. revert w. induction locs as [|loc locs IH]; intros w Hlr Hsub; cbn zeta.
  { intros j X HX [Hin|?]; [by apply elem_of_nil in Hin | done]. }
  cbn [fold_left].
  assert (loc ∈ LOCATIONS) as [j0 Hj0]%list_elem_of_lookup_1
    by apply Hsub, list_elem_of_here.
  rewrite (Hlr j0 loc Hj0). cbn [marker].
  set (w1 := marker_setIcon j0 (createMarkerIcon loc b) w).
  intros j X HX Hor. apply (IH w1); [done| |done|].
  { intros X' HX'. by apply Hsub, list_elem_of_further. }
  destruct (decide (j = j0)) as [->|Hne].
  - right. rewrite Hj0 in HX. injection HX as <-. subst w1. cbn. apply lookup_insert_eq.
  - destruct Hor as [[->|Hin]%elem_of_cons|Hicon].
    + exfalso. apply Hne. eapply (NoDup_lookup (id <$> LOCATIONS)); [done|..].
      * by rewrite list_lookup_fmap, HX.
      * by rewrite list_lookup_fmap, Hj0.
    + by left.
    + right. subst w1. cbn. by rewrite lookup_insert_ne.
Qed.

Lemma labelsEffect_icons (b : bool) (w : World) :
  NoDup (id <$> LOCATIONS) →
  (∀ j X, LOCATIONS !! j = Some X →
          layerRefs w !! Int (id X) = Some (mkLayerPair j j)) →
  ∀ j X, LOCATIONS !! j = Some X →
         markerIcon (labelsEffect b w) !! j = Some (createMarkerIcon X b).
Proof.
  intros Hnd Hlr j X HX. unfold labelsEffect.
  apply (labels_fold b LOCATIONS w Hnd Hlr); [done..|].
  left. by eapply list_elem_of_lookup_2.
Qed.

Lemma iconsInv_mount : NoDup (id <$> LOCATIONS) → iconsInv mount.
Proof.
  intros Hnd i X HX.
  destruct initEffect_initial as (wi & r0 & E & _).
  pose proof Inv_mount as Hinv. revert Hinv.
  destruct mount_eq as (wi' & r0' & E' & ->). rewrite E in E'. injection E' as <- <-.
  intros Hinv. cbn [hooks world showLabels with_radii initialHooks].
  pose proof (λ j Y, layerRefs_of_catalog _ j Y Hinv Hnd) as Hp. cbn [world] in Hp.
  destruct (radiiEffect_frame r0
              (clusteringEffect true (labelsEffect true (heatmapEffect false wi))))
    as (_ & _ & _ & D4 & _ & _ & D7).
  destruct (clusteringEffect_frame true (labelsEffect true (heatmapEffect false wi)))
    as (_ & _ & _ & C4 & _ & _ & C7 & _).
  destruct (labelsEffect_frame true (heatmapEffect false wi)) as (_ & _ & _ & B4 & _).
  rewrite D7, C7. rewrite D4, C4, B4 in Hp.
  by apply labelsEffect_icons.
Qed.

Lemma iconsInv_handle (e : Event) (s : State) :
  NoDup (id <$> LOCATIONS) → Inv s → iconsInv s → iconsInv (handle e s).
Proof.
  intros Hnd Hinv Hicons i X HX.
  destruct (hooks_handle e s) as (_ & _ & _ & Hsl & _). cbn zeta in Hsl.
  destruct (handle_frame e s) as (_ & Hmi & _). rewrite Hsl.
  destruct e as [q|k r|loc v|b|b|b|b|v|loc|]; try (rewrite Hmi; by apply Hicons).
  rewrite handle_SetShowLabels. cbn [world].
  destruct (Bool.eqb _ b) eqn:E.
  - apply eqb_true_eq in E. subst b. by apply Hicons.
  - apply labelsEffect_icons; [done| |done].
    intros j Y HY. by apply layerRefs_of_catalog.
Qed.

(** X5.  With the unique ids of the catalog, at every point of a session
    the icon of every marker is the one [createMarkerIcon] makes for its
    record and for the current value of [showLabels]: the label bubble
    holds the city name when labels are shown and is absent when they are
    not. *)
Theorem icons_follow_labels (es : list Event) (i : nat) (X : LocationData) :
  NoDup (id <$> LOCATIONS) → LOCATIONS !! i = Some X →
  let s := session es in
  markerIcon (world s) !! i = Some (createMarkerIcon X (showLabels (hooks s)))
  ∧ (showLabels (hooks s) = true →
     labelHtml <$> markerIcon (world s) !! i = Some (Some (city X)))
  ∧ (showLabels (hooks s) = false →
     labelHtml <$> markerIcon (world s) !! i = Some None).
Proof.
  intros Hnd HX s.
  assert (Inv s ∧ iconsInv s) as [_ Hicons].
  { subst s. unfold session.
    apply (fold_left_invariant (λ s, Inv s ∧ iconsInv s)).
    - split; [apply Inv_mount | by apply iconsInv_mount].
    - intros s e [Hi Hc]. split; [by apply Inv_handle | by apply iconsInv_handle]. }
  rewrite (Hicons i X HX). split_and!; [done|..]; by intros ->.
Qed.

(** ** Selecting a location *)


(** X7.  Selecting a location whose id is not in the catalog does nothing:
    the guard on [layerRefs] leaves the whole state as it is, no call
    issued. *)
Theorem location_select_unknown (es : list Event) (loc : LocationData) :
  Int (id loc) ∉ catalogIds →
  handle (LocationSelect loc) (session es) = session es.
Proof.
  intros Hout. pose proof (Inv_session es) as Hinv.
  cbn [handle]. unfold handleLocationSelect.
  destruct (layerRefs (world (session es)) !! Int (id loc)) as [p|] eqn:Hp.
  - exfalso. apply Hout. rewrite <- (inv_layerRefs_dom _ Hinv). apply elem_of_dom. eauto.
  - destruct (mapRef (world (session es))); by destruct (session es).
Qed.

(** ** More on the search filter *)





(** After the overwrite every entry is the uniform radius. *)
Lemma sync_trigger_uniform (s : State) (e : Event) :
  syncTrigger e s →
  isSynced (hooks (handle e s)) = true
  ∧ ∀ k r, radii (hooks (handle e s)) !! k = Some r →
           r = uniformRadius (hooks (handle e s)).
Proof.
  intros Htr. pose proof (radii_handle e s) as Hr. cbn zeta in Hr.
  destruct (hooks_handle e s) as (_ & H1 & H2 & _). cbn zeta in H1, H2.
  rewrite H1, H2, Hr.
  destruct e as [| | | | | |b|v| |]; try done; cbn [syncTrigger] in Htr.
  - destruct Htr as [-> Hs]. rewrite Hs. cbn. split; [done|].
    intros k r. rewrite lookup_fmap. destruct (_ !! k); [|done]. by intros [= <-].
  - destruct Htr as [Hs Hv]. rewrite Hs.
    destruct (Z.eqb_spec (uniformRadius (hooks s)) v); [done|]. cbn. split; [done|].
    intros k r. rewrite lookup_fmap. destruct (_ !! k); [|done]. by intros [= <-].
Qed.
(** ** More on the radius store and its drawing *)





(** X10.  Switching the synchronization off changes no radius and draws
    nothing; and while it is off, a change of the uniform radius is
    recorded and nothing else happens. *)
Theorem sync_off_is_inert (s : State) :
  handle (SetIsSynced false) s = mkState (with_isSynced false (hooks s)) (world s)
  ∧ (isSynced (hooks s) = false →
     ∀ v, handle (SetUniformRadius v) s
          = mkState (with_uniformRadius v (hooks s)) (world s)).
Proof.
  split.
  - rewrite handle_SetIsSynced. destruct (isSynced (hooks s)) eqn:E; cbn; [done|].
    rewrite <- E, with_isSynced_same. by destruct s.
  - intros E v. rewrite handle_SetUniformRadius, E.
    destruct (Z.eqb_spec (uniformRadius (hooks s)) v) as [<-|]; [|done].
    rewrite with_uniformRadius_same. by destruct s.
Qed.


(** X12.  The synchronization is not applied again when one radius is
    set: after the overwrite, a call of [window.updateRadius] leaves
    [isSynced] true, gives its key the value passed, and leaves every
    other entry at the uniform radius. *)
Theorem updateRadius_after_sync (s : State) (e : Event) (k : number) (r : Z) :
  syncTrigger e s →
  let s1 := handle e s in
  let s2 := handle (WindowUpdateRadius k r) s1 in
  isSynced (hooks s2) = true
  ∧ uniformRadius (hooks s2) = uniformRadius (hooks s1)
  ∧ radii (hooks s2) !! k = Some r
  ∧ (∀ k' r', k' ≠ k → radii (hooks s2) !! k' = Some r' →
              r' = uniformRadius (hooks s2)).
Proof.
  intros Htr s1 s2.
  destruct (sync_trigger_uniform s e Htr) as (Hs & Hall). fold s1 in Hs, Hall.
  pose proof (radii_handle (WindowUpdateRadius k r) s1) as Hr. cbn zeta in Hr. fold s2 in Hr.
  destruct (hooks_handle (WindowUpdateRadius k r) s1) as (_ & H1 & H2 & _).
  cbn zeta in H1, H2. fold s2 in H1, H2.
  rewrite H1, H2, Hr. split_and!; [done|done|apply lookup_insert_eq|].
  intros k' r' Hne. rewrite lookup_insert_ne by done. apply Hall.
Qed.


(** ** The mount, and the calls of the labels effect *)

Lemma addLayer_heatPoints (l : Layer) (w : World) :
  heatPoints (addLayer l w) = heatPoints w.
Proof.
  unfold addLayer. destruct (hasLayer l w); [done|].
  destruct l; try done. unfold onMarkerAdd. by destruct (negb _).
Qed.

Lemma removeLayer_heatPoints (l : Layer) (w : World) :
  heatPoints (removeLayer l w) = heatPoints w.
Proof.
  unfold removeLayer. destruct (negb (hasLayer l w)); [done|].
  destruct l; try done. unfold onMarkerRemove. by destruct (hasLayer (Circle _) _).
Qed.

Lemma effects_heatPoints (w : World) (b : bool) (m : gmap number Z) :
  heatPoints (heatmapEffect b w) = heatPoints w
  ∧ heatPoints (labelsEffect b w) = heatPoints w
  ∧ heatPoints (clusteringEffect b w) = heatPoints w
  ∧ heatPoints (radiiEffect m w) = heatPoints w.
Proof.
  split_and!.
  - unfold heatmapEffect. destruct (_ || _); [done|].
    destruct b; [destruct (negb _)|destruct (hasLayer _ _)];
      by rewrite ?addLayer_heatPoints, ?removeLayer_heatPoints.
  - unfold labelsEffect. apply fold_left_invariant; [done|].
    intros w1 loc <-. by destruct (layerRefs w1 !! _).
  - unfold clusteringEffect. destruct (_ || _); [done|]. destruct b.
    + set (w1 := fold_left _ _ w). assert (heatPoints w1 = heatPoints w) as H1.
      { subst w1. apply fold_left_invariant; [done|]. intros w' refs <-.
        destruct (hasLayer _ w'); [apply removeLayer_heatPoints | done]. }
      destruct (negb _); by rewrite ?addLayer_heatPoints.
    + set (w1 := if hasLayer MarkerClusterGroup w then _ else w).
      assert (heatPoints w1 = heatPoints w) as H1.
      { subst w1. destruct (hasLayer _ w); by rewrite ?removeLayer_heatPoints. }
      rewrite <- H1. apply (fold_left_invariant (λ w', heatPoints w' = heatPoints w1));
        [done|].
      intros w' refs <-. destruct (negb _); by rewrite ?addLayer_heatPoints.
  - unfold radiiEffect. apply fold_left_invariant; [done|].
    intros w1 [id0 r] <-. unfold radiiEntry.
    destruct (layerRefs w1 !! _); [|done]. cbn.
    destruct (document w1 !! _); cbn; [|done].
    by destruct (<[_ := _]> (document w1) !! _).
Qed.

Lemma initLocations_heatPoints (locs : list LocationData) (i : nat)
    (r : gmap number Z) (w : World) :
  heatPoints (initLocations i locs (r, w)).2 = heatPoints w.
Proof.
  revert i r w. induction locs as [|loc locs IH]; intros i r w; [done|].
  cbn [initLocations initLocation]. by rewrite IH.
Qed.

Lemma initEffect_rest (wi : World) (q : list (SetStateAction (gmap number Z))) :
  initEffect initialWorld = (wi, q) →
  heatPoints wi = (λ loc, (lat loc, lng loc, courierNeed loc)) <$> LOCATIONS
  ∧ (∀ i, i ∈ clusterLayers wi ↔ (i < length LOCATIONS)%nat).
Proof.
  unfold initEffect. cbn [initialWorld mapRef mapContainerRef negb orb].
  set (w0 := with_refs true true true _ _).
  pose proof (initLocations_spec LOCATIONS 0 ∅ w0) as Hspec. cbn zeta in Hspec.
  pose proof (initLocations_heatPoints LOCATIONS 0 ∅ w0) as Hhp.
  destruct (initLocations 0 LOCATIONS (∅, w0)) as [r0 w1] eqn:E. cbn [fst snd] in *.
  destruct Hspec as (_ & _ & _ & H4 & _).
  intros [= <- _]. cbn. rewrite addLayer_heatPoints, Hhp. split; [done|].
  intros i. destruct (addLayer_spec MarkerClusterGroup w1) as [(_ & _ & _ & _ & -> & _) _].
  assert (clusterLayers w0 = ∅) as Hc0.
  { subst w0. cbn. unfold addLayer. by destruct (hasLayer _ _). }
  rewrite H4, Hc0, elem_of_empty. split; [intros [?|?]; [done|lia] | intros; right; lia].
Qed.

Lemma mount_hooks : hooks mount = with_radii (gset_to_gmap 10 catalogIds) initialHooks.
Proof.
  destruct initEffect_initial as (wi & r0 & E & -> & _).
  destruct mount_eq as (wi' & r0' & E' & ->). rewrite E in E'. by injection E' as <- <-.
Qed.

(** X14.  The mount, for every catalog: the tile layer and the cluster
    group are the only layers on the map (the heat layer is made from the
    triples of latitude, longitude and courier need, and is not attached;
    no marker and no circle is on the map by itself); every marker is in
    the cluster group; no popup is open; and with unique ids every circle
    is drawn at 10000 metres. *)
Theorem mount_world :
  mapLayers (world mount) = {[ TileLayer; MarkerClusterGroup ]}
  ∧ heatPoints (world mount) = (λ loc, (lat loc, lng loc, courierNeed loc)) <$> LOCATIONS
  ∧ (∀ i, i ∈ clusterLayers (world mount) ↔ (i < length LOCATIONS)%nat)
  ∧ document (world mount) = ∅
  ∧ (NoDup (id <$> LOCATIONS) →
     ∀ i, (i < length LOCATIONS)%nat → circleRadius (world mount) !! i = Some 10000).
Proof.
  pose proof Inv_mount as Hinv. pose proof mount_hooks as Hh.
  pose proof mount_radii as Hr.
  pose proof (mapLayers_session []) as Hl. cbn zeta in Hl.
  change (session []) with mount in Hl. rewrite Hh in Hl. cbn in Hl.
  destruct initEffect_initial as (wi & r0 & E & _ & _ & _ & _ & _ & _ & _ & Hdoc).
  destruct (initEffect_rest wi _ E) as [Hhp Hcl].
  revert Hinv Hr Hl.
  destruct mount_eq as (wi' & r0' & E' & ->). rewrite E in E'. injection E' as <- <-.
  intros Hinv Hr Hl. cbn [world hooks radii with_radii] in *.
  set (wa := heatmapEffect false wi) in *.
  set (wb := labelsEffect true wa) in *.
  set (wc := clusteringEffect true wb) in *.
  destruct (effects_heatPoints wi false r0) as (P1 & _).
  destruct (effects_heatPoints wa true r0) as (_ & P2 & _).
  destruct (effects_heatPoints wb true r0) as (_ & _ & P3 & _).
  destruct (effects_heatPoints wc true r0) as (_ & _ & _ & P4).
  destruct (heatmapEffect_spec false wi) as [(_ & _ & _ & _ & A5 & _ & _ & A8) _].
  destruct (labelsEffect_frame true wa) as (_ & _ & _ & _ & B5 & _ & _ & B8).
  destruct (clusteringEffect_frame true wb) as (_ & _ & _ & _ & C5 & _ & _ & C8).
  destruct (radiiEffect_frame r0 wc) as (_ & _ & _ & _ & _ & D6 & _).
  destruct (radiiEffect_other r0 wc) as [_ Hkeys].
  split_and!.
  - apply set_eq. intros x. rewrite Hl.
    rewrite elem_of_union, !elem_of_singleton.
    destruct x; split; try done; try (by intros [?|?]); auto.
    + by intros [? _].
    + by intros [? _].
  - fold wa wb wc in P1, P2, P3, P4. congruence.
  - intros i. fold wa wb wc in A5, B5, C5, D6. rewrite D6, C5, B5, A5. apply Hcl.
  - apply map_empty. intros key. apply eq_None_not_Some. intros Hkey%Hkeys.
    fold wa wb wc in A8, B8, C8. rewrite C8, B8, A8, Hdoc, lookup_empty in Hkey.
    by destruct Hkey.
  - intros Hnd i [X HX]%lookup_lt_is_Some_2.
    pose proof (layerRefs_of_catalog _ i X Hinv Hnd HX) as Hp.
    apply (inv_circles _ Hinv _ _ 10 Hp). cbn [hooks radii].
    rewrite Hr. apply lookup_gset_to_gmap_Some. split; [|done].
    apply elem_of_catalogIds. exists X. split; [|done]. by eapply list_elem_of_lookup_2.
Qed.

Lemma labels_calls (b : bool) (locs : list LocationData) (w : World) :
  calls (fold_left
           (λ w loc,
              match layerRefs w !! Int (id loc) with
              | Some refs => marker_setIcon (marker refs) (createMarkerIcon loc b) w
              | None => w
              end) locs w) =
  calls w ++ (locs ≫= λ loc, match layerRefs w !! Int (id loc) with
                              | Some refs => [SetIcon (marker refs) (createMarkerIcon loc b)]
                              | None => []
                              end).
Proof.
  revert w. induction locs as [|loc locs IH]; intros w; [by rewrite app_nil_r|].
  cbn [fold_left]. rewrite IH, bind_cons.
  destruct (layerRefs w !! Int (id loc)) as [refs|]; cbn; [|done].
  by rewrite <- app_assoc.
Qed.

Lemma labels_bind_imap (b : bool) (w : World) (locs : list LocationData) (n : nat) :
  (∀ j X, locs !! j = Some X →
          layerRefs w !! Int (id X) = Some (mkLayerPair (n + j) (n + j))) →
  (locs ≫= λ loc, match layerRefs w !! Int (id loc) with
                   | Some refs => [SetIcon (marker refs) (createMarkerIcon loc b)]
                   | None => []
                   end)
  = imap (λ j X, SetIcon (n + j) (createMarkerIcon X b)) locs.
Proof.
  revert n. induction locs as [|loc locs IH]; intros n Hlr; [done|].
  rewrite bind_cons, (Hlr 0%nat loc eq_refl). cbn [marker imap app].
  rewrite Nat.add_0_r. f_equal. rewrite (IH (S n)).
  - apply imap_ext. intros j X _. cbn. f_equal. lia.
  - intros j X HX. specialize (Hlr (S j) X HX).
    by replace (S n + j)%nat with (n + S j)%nat by lia.
Qed.

(** X15.  With the unique ids of the catalog, a change of [showLabels]
    rebuilds every icon once: the calls issued are one [setIcon] for each
    record of the catalog, in the order of the catalog, on the marker of
    the record and with the icon [createMarkerIcon] makes for the new
    value. *)
Theorem labels_toggle_calls (es : list Event) (b : bool) :
  NoDup (id <$> LOCATIONS) →
  let s := session es in
  b ≠ showLabels (hooks s) →
  calls (world (handle (SetShowLabels b) s))
  = calls (world s) ++ imap (λ i X, SetIcon i (createMarkerIcon X b)) LOCATIONS.
Proof.
  intros Hnd s Hb. pose proof (Inv_session es) as Hinv. fold s in Hinv.
  rewrite handle_SetShowLabels. cbn [world].
  destruct (Bool.eqb (showLabels (hooks s)) b) eqn:E.
  { apply eqb_true_eq in E. done. }
  unfold labelsEffect. rewrite labels_calls. f_equal.
  apply (labels_bind_imap b (world s) LOCATIONS 0).
  intros j X HX. by apply layerRefs_of_catalog.
Qed.

End App.

(** * Instances on the sample catalog *)

Lemma sample_ids_NoDup : NoDup (id <$> sample_LOCATIONS).
Proof. compute_done. Qed.

Lemma sample_catalogIds (k : number) :
  k ∈ catalogIds sample_LOCATIONS ↔ k = Int 1 ∨ k = Int 2 ∨ k = Int 3.
Proof. unfold catalogIds. cbn. set_solver. Qed.

(** Synchronization is on; the uniform radius goes from 10 to 15: the map
    {1: 10, 2: 10, 3: 10} becomes {1: 15, 2: 15, 3: 15} in one [setRadii]. *)
Lemma sync_overwrites_all_witness :
  let s := session sample_LOCATIONS [SetIsSynced true] in
  let s' := handle sample_LOCATIONS (SetUniformRadius 15) s in
  syncTrigger (SetUniformRadius 15) s
  ∧ syncEffect (afterSetter (SetUniformRadius 15) (hooks s)) = [SetValue (radii (hooks s'))]
  ∧ radii (hooks s') = <[Int 1 := 15]> (<[Int 2 := 15]> (<[Int 3 := 15]> ∅))
  ∧ (∀ k r, radii (hooks s') !! k = Some r → r = 15).
Proof.
  intros s s'.
  assert (syncTrigger (SetUniformRadius 15) s) as Htr by (by vm_compute).
  destruct (sync_overwrites_all sample_LOCATIONS s (SetUniformRadius 15) Htr)
    as (H1 & H2 & H3 & H4).
  split_and!; [done | done | by vm_compute | done].
Defined.

(** A call of [window.updateRadius] for the id 99, which the catalog does
    not have, right after the mount: RadiusMap gets a fourth key. *)
Lemma radii_keys_catalog_counterexample :
  let s := session sample_LOCATIONS [WindowUpdateRadius (Int 99) 5] in
  Int 99 ∈ dom (radii (hooks s))
  ∧ (Int 99 ∉ catalogIds sample_LOCATIONS)
  ∧ dom (radii (hooks s)) ≠ catalogIds sample_LOCATIONS.
Proof.
  intros s.
  assert (Int 99 ∈ dom (radii (hooks s))) as Hin.
  { subst s. unfold session. cbn [fold_left]. rewrite radii_handle. cbn zeta.
    rewrite dom_insert_L. apply elem_of_union_l, elem_of_singleton. done. }
  assert (Int 99 ∉ catalogIds sample_LOCATIONS) as Hout.
  { rewrite sample_catalogIds. by intros [?|[?|?]]. }
  split_and!; [done..|]. intros E. by rewrite E in Hin.
Qed.

(** A session in which every call of [window.updateRadius] is made for an
    id of the catalog. *)
Lemma radii_keys_catalog_witness :
  let es := [SetIsSynced true; SetUniformRadius 15;
             WindowUpdateRadius (Int 2) 7; SetShowLabels false] in
  Forall (forCatalogId sample_LOCATIONS) es
  ∧ catalogIds sample_LOCATIONS ⊆ dom (radii (hooks (session sample_LOCATIONS es)))
  ∧ dom (radii (hooks (session sample_LOCATIONS es))) = catalogIds sample_LOCATIONS.
Proof.
  intros es.
  assert (Forall (forCatalogId sample_LOCATIONS) es) as Hall.
  { repeat (apply Forall_cons; split; [by cbn; rewrite ?sample_catalogIds; auto|]).
    constructor. }
  destruct (radii_keys_catalog sample_LOCATIONS es) as [H1 H2].
  split_and!; [done | done | by apply H2].
Defined.





(** The catalog of three records is loaded as {1: 10, 2: 10, 3: 10}. *)
Lemma mount_initial_radii_witness :
  NoDup (id <$> sample_LOCATIONS)
  ∧ radii (hooks (mount sample_LOCATIONS))
    = <[Int 1 := 10]> (<[Int 2 := 10]> (<[Int 3 := 10]> ∅))
  ∧ size (radii (hooks (mount sample_LOCATIONS))) = 3%nat.
Proof.
  destruct (mount_initial_radii sample_LOCATIONS) as (H1 & H2 & H3 & H4).
  split_and!; [apply sample_ids_NoDup | by vm_compute | apply H4, sample_ids_NoDup].
Defined.


(** The labels are switched off: a flag changes, RadiusMap does not. *)
Lemma flags_and_radii_independent_witness :
  let s := mount sample_LOCATIONS in
  let s' := handle sample_LOCATIONS (SetShowLabels false) s in
  (flags (hooks s') = (false, false, true))
  ∧ (flags (hooks s) = (true, false, true))
  ∧ radii (hooks s') = radii (hooks s).
Proof.
  intros s s'.
  assert (flags (hooks s') = (false, false, true)) as H1 by (by vm_compute).
  assert (flags (hooks s) = (true, false, true)) as H2 by (by vm_compute).
  destruct (flags_and_radii_independent sample_LOCATIONS (SetShowLabels false) s)
    as (_ & Hflag & _).
  split_and!; [done..|]. apply Hflag. fold s'. by rewrite H1, H2.
Defined.


(** ** Instances of the further properties *)



(** The pair of Londonderry, the second record of the sample catalog. *)
Lemma layerRefs_fixed_witness :
  let londonderry := mkLocation 2 "Londonderry" "Northern Ireland" (55 # 1) (-73 # 10) 120 in
  NoDup (id <$> sample_LOCATIONS)
  ∧ sample_LOCATIONS !! 1%nat = Some londonderry
  ∧ layerRefs (world (session sample_LOCATIONS [SetShowLabels false; SetIsSynced true]))
    !! Int 2 = Some (mkLayerPair 1 1).
Proof.
  intros londonderry.
  destruct (layerRefs_fixed sample_LOCATIONS [SetShowLabels false; SetIsSynced true])
    as (_ & _ & H3).
  split_and!; [apply sample_ids_NoDup | done |].
  exact (H3 sample_ids_NoDup 1%nat londonderry eq_refl).
Defined.

(** The labels are switched off: the icon of London has no label bubble. *)
Lemma icons_follow_labels_witness :
  let london := mkLocation 1 "London" "Greater London" (515 # 10) (-1 # 10) 500 in
  let s := session sample_LOCATIONS [SetShowLabels false] in
  NoDup (id <$> sample_LOCATIONS)
  ∧ sample_LOCATIONS !! 0%nat = Some london
  ∧ showLabels (hooks s) = false
  ∧ labelHtml <$> markerIcon (world s) !! 0%nat = Some None.
Proof.
  intros london s.
  destruct (icons_follow_labels sample_LOCATIONS [SetShowLabels false] 0%nat london
              sample_ids_NoDup eq_refl) as (_ & _ & H3).
  assert (showLabels (hooks s) = false) as E by (by vm_compute).
  split_and!; [apply sample_ids_NoDup | done | done | by apply H3].
Defined.


(** A record with the id 99 is not of the sample catalog. *)
Lemma location_select_unknown_witness :
  let nowhere := mkLocation 99 "Nowhere" "Nowhere" (0 # 1) (0 # 1) 0 in
  (Int (id nowhere) ∉ catalogIds sample_LOCATIONS)
  ∧ handle sample_LOCATIONS (LocationSelect nowhere)
      (session sample_LOCATIONS [SetShowHeatmap true])
    = session sample_LOCATIONS [SetShowHeatmap true].
Proof.
  intros nowhere.
  assert (Int (id nowhere) ∉ catalogIds sample_LOCATIONS) as Hout.
  { rewrite sample_catalogIds. by intros [?|[?|?]]. }
  split; [done|].
  exact (location_select_unknown sample_LOCATIONS [SetShowHeatmap true] nowhere Hout).
Defined.


(** Right after the mount the synchronization is off: setting the uniform
    radius to 25 is recorded and nothing is drawn. *)
Lemma sync_off_is_inert_witness :
  let s := mount sample_LOCATIONS in
  isSynced (hooks s) = false
  ∧ handle sample_LOCATIONS (SetUniformRadius 25) s
    = mkState (with_uniformRadius 25 (hooks s)) (world s).
Proof.
  intros s.
  destruct (sync_off_is_inert sample_LOCATIONS s) as [_ H2].
  assert (isSynced (hooks s) = false) as E by (by vm_compute).
  split; [done | by apply H2].
Defined.

(** The uniform radius is 15 when the synchronization is switched on; then
    the popup of Londonderry sets 7: {1: 15, 2: 7, 3: 15}. *)
Lemma updateRadius_after_sync_witness :
  let s := session sample_LOCATIONS [SetUniformRadius 15] in
  let s1 := handle sample_LOCATIONS (SetIsSynced true) s in
  let s2 := handle sample_LOCATIONS (WindowUpdateRadius (Int 2) 7) s1 in
  syncTrigger (SetIsSynced true) s
  ∧ isSynced (hooks s2) = true
  ∧ radii (hooks s2) !! Int 2 = Some 7
  ∧ radii (hooks s2) = <[Int 1 := 15]> (<[Int 2 := 7]> (<[Int 3 := 15]> ∅)).
Proof.
  intros s s1 s2.
  assert (syncTrigger (SetIsSynced true) s) as Htr by (by vm_compute).
  destruct (updateRadius_after_sync sample_LOCATIONS s (SetIsSynced true) (Int 2) 7 Htr)
    as (H1 & _ & H3 & _).
  split_and!; [done | done | done | by vm_compute].
Defined.

(** The sample catalog right after the mount: every circle at 10000 metres. *)
Lemma mount_world_witness :
  NoDup (id <$> sample_LOCATIONS)
  ∧ mapLayers (world (mount sample_LOCATIONS)) = {[ TileLayer; MarkerClusterGroup ]}
  ∧ circleRadius (world (mount sample_LOCATIONS)) !! 2%nat = Some 10000.
Proof.
  destruct (mount_world sample_LOCATIONS) as (H1 & _ & _ & _ & H5).
  split_and!; [apply sample_ids_NoDup | done |].
  apply (H5 sample_ids_NoDup). cbn. lia.
Defined.

(** The labels are switched off right after the mount: three [setIcon]
    calls, in the order of the catalog, each with an icon without label. *)
Lemma labels_toggle_calls_witness :
  let s := session sample_LOCATIONS [] in
  NoDup (id <$> sample_LOCATIONS)
  ∧ (false ≠ showLabels (hooks s))
  ∧ calls (world (handle sample_LOCATIONS (SetShowLabels false) s))
    = calls (world s)
      ++ [SetIcon 0 (mkDivIcon None); SetIcon 1 (mkDivIcon None);
          SetIcon 2 (mkDivIcon None)].
Proof.
  intros s.
  assert (false ≠ showLabels (hooks s)) as Hb by (by vm_compute).
  split_and!; [apply sample_ids_NoDup | done |].
  exact (labels_toggle_calls sample_LOCATIONS [] false sample_ids_NoDup Hb).
Defined.

